(** * CustomSVM: a simplified-SMO support vector machine

    Shallow embedding of the class [CustomSVM] of
    [Implementiation_of_SVMs_and_Kernel_methods.ipynb] (methods [__init__],
    [_kernel], [fit], [decision_function], [predict]).

    Modelling decisions.
    - Numbers.  numpy's float64 values are modelled by exact rationals [Q]:
      [+], [-], [*], [/] and the comparisons are the exact ones, the literal
      [1e-5] is [1/100000].  Rounding, overflow and NaN are outside the model.
      [np.exp] has no rational counterpart; it is a parameter ([np_exp]) of
      the development and nothing is assumed about it.
    - Arrays.  A 1-D array is a [list Q], a 2-D array a list of rows.  The
      label array is the one array the caller shares with [fit], so label
      arrays live in a store ([heap]) and are passed by reference.
    - Shapes.  numpy raises when shapes do not fit ([self.alpha * y] with
      [y] not one label per row, [X1 @ X2.T] with different column counts);
      the list operations below truncate or pad instead.  The model is
      therefore meant for arguments of fitting shapes, and the statements
      that speak of exceptions or of results on all inputs carry these
      shapes as hypotheses ([well_shaped], [row_width]).
    - Exceptions.  [_kernel], [decision_function] and [predict] return a
      [result]: a value or a raised Python exception.  [fit] ends in a [run]:
      it returns, raises, or is [Diverges] when the partner-selection loop
      [while j == i] exhausts the number of draws the model allows it.
    - Randomness.  [np.random.randint(0, n)] is the [k]-th draw of an
      injected source [rng : nat -> nat], reduced modulo [n]. *)

From Stdlib Require Import QArith Qabs Lqa.
From stdpp Require Import gmap strings list fin_maps.

Local Open Scope Q_scope.

(** ** Scalars *)

Definition Qltb (x y : Q) : bool := negb (Qle_bool y x).

(** Python's builtin [max(a, b)] and [min(a, b)]: the first argument is kept
    unless the second is strictly larger (smaller). *)
Definition py_max (a b : Q) : Q := if Qltb a b then b else a.
Definition py_min (a b : Q) : Q := if Qltb b a then b else a.

(** [np.clip(v, lo, hi)] is [minimum(maximum(v, lo), hi)]. *)
Definition np_clip (v lo hi : Q) : Q :=
  let m := if Qltb v lo then lo else v in
  if Qltb hi m then hi else m.

(** The literal [1e-5]. *)
Definition eps5 : Q := 1 # 100000.

(** ** Arrays *)

Abbreviation vector := (list Q).
Abbreviation matrix := (list (list Q)).

(** [np.sum] of a 1-D array. *)
Fixpoint np_sum (v : vector) : Q :=
  match v with
  | [] => 0
  | a :: v' => a + np_sum v'
  end.

(** Inner product of two rows, the entry of a matrix product. *)
Fixpoint dot (u v : vector) : Q :=
  match u, v with
  | a :: u', c :: v' => a * c + dot u' v'
  | _, _ => 0
  end.

(** [X1 @ X2.T]: entry [i, j] is the inner product of row [i] of [X1] and
    row [j] of [X2]. *)
Definition matmul_T (X1 X2 : matrix) : matrix :=
  map (fun r1 => map (fun r2 => dot r1 r2) X2) X1.

(** [s * X] and [f(X)] applied entry by entry. *)
Definition mat_map (f : Q -> Q) (X : matrix) : matrix := map (map f) X.

(** [np.sum(X**2, axis=1)]. *)
Definition row_sq_sums (X : matrix) : vector :=
  map (fun r => np_sum (map (fun x => x ^ 2) r)) X.

(** [u[:, np.newaxis] + v]: the broadcast sum, entry [i, j] is [u[i] + v[j]]. *)
Definition outer_add (u v : vector) : matrix :=
  map (fun a => map (fun c => a + c) v) u.

(** Entry-wise difference of two matrices of the same shape. *)
Definition mat_sub (A B : matrix) : matrix :=
  zip_with (zip_with Qminus) A B.

(** [K[i, j]], [K[:, i]] and [v[i]]; the loops of [fit] only use indices
    below the array sizes. *)
Definition vget (v : vector) (i : nat) : Q := nth i v 0.
Definition mget (K : matrix) (i j : nat) : Q := nth j (nth i K []) 0.
Definition col (K : matrix) (i : nat) : vector := map (fun r => nth i r 0) K.

(** [X[mask]]: boolean-mask indexing, which builds a new array. *)
Fixpoint mask_select {A : Type} (mask : list bool) (l : list A) : list A :=
  match mask, l with
  | m :: mask', x :: l' => if m then x :: mask_select mask' l' else mask_select mask' l'
  | _, _ => []
  end.

(** ** The store of label arrays *)

Abbreviation loc := nat (only parsing).
Abbreviation heap := (gmap loc vector).

(** [y.copy()]: a new array with the same contents. *)
Definition np_copy (h : heap) (l : loc) : loc * heap :=
  let l' := fresh (dom h) in (l', <[l' := h !!! l]> h).

(** [y[y == v] = w]: masked assignment, in place. *)
Definition np_assign_where_eq (h : heap) (l : loc) (v w : Q) : heap :=
  alter (map (fun a => if Qeq_bool a v then w else a)) l h.

(** A new array holding [v]. *)
Definition np_alloc (h : heap) (v : vector) : loc * heap :=
  let l' := fresh (dom h) in (l', <[l' := v]> h).

(** ** Exceptions and outcomes *)

Inductive exn : Type :=
| ValueError_unknown_kernel      (* raise ValueError("Unknown kernel type") *)
| AttributeError_NoneType          (* None.T *)
| TypeError_NoneType.              (* None ** 2, None * array *)

Inductive result (A : Type) : Type :=
| Value (a : A)
| Raise (e : exn).
Arguments Value {A} a.
Arguments Raise {A} e.

(** ** The model object *)

Record CustomSVM : Type := mkSVM {
  kernel : string;
  C : Q;
  gamma : Q;
  degree : Z;
  coef0 : Q;
  alpha : option vector;
  b : Q;
  X_train : option matrix;
  y_train : option loc;
  support_vectors : option matrix
}.

(** [CustomSVM(kernel, C, gamma, degree, coef0)]. *)
Definition __init__ (kernel : string) (C gamma : Q) (degree : Z) (coef0 : Q) : CustomSVM :=
  {| kernel := kernel; C := C; gamma := gamma; degree := degree; coef0 := coef0;
     alpha := None; b := 0; X_train := None; y_train := None;
     support_vectors := None |}.

(** The outcome of [fit]: the object and the store as the call leaves them. *)
Inductive run : Type :=
| Returns (self' : CustomSVM) (h' : heap)
| Raises (e : exn) (self' : CustomSVM) (h' : heap)
| Diverges.

(** The kernel names that [_kernel] dispatches on. *)
Definition kernel_supported (name : string) : bool :=
  String.eqb name "linear" || String.eqb name "poly" || String.eqb name "rbf".

(** The exceptions that come from the unset [self.support_vectors]. *)
Definition not_fitted_error (e : exn) : bool :=
  match e with
  | AttributeError_NoneType | TypeError_NoneType => true
  | ValueError_unknown_kernel => false
  end.

Section Model.

(** [np.exp]. *)
Variable np_exp : Q -> Q.

(** [self._kernel(X1, X2)].  [X2] is [None] when [decision_function] passes
    the unset [self.support_vectors]. *)
Definition _kernel (self : CustomSVM) (X1 : matrix) (X2 : option matrix) : result matrix :=
  if String.eqb (kernel self) "linear" then
    match X2 with
    | None => Raise AttributeError_NoneType
    | Some X2 => Value (matmul_T X1 X2)
    end
  else if String.eqb (kernel self) "poly" then
    match X2 with
    | None => Raise AttributeError_NoneType
    | Some X2 =>
        Value (mat_map (fun d => (gamma self * d + coef0 self) ^ degree self)
                       (matmul_T X1 X2))
    end
  else if String.eqb (kernel self) "rbf" then
    match X2 with
    | None => Raise TypeError_NoneType
    | Some X2 =>
        let dists := mat_sub (outer_add (row_sq_sums X1) (row_sq_sums X2))
                             (matmul_T (mat_map (fun x => 2 * x) X1) X2) in
        Value (mat_map (fun d => np_exp (- gamma self * d)) dists)
    end
  else Raise ValueError_unknown_kernel.

(** ** The SMO loop of [fit] *)

(** What the loop mutates: [self.alpha], [self.b] and the position in the
    random source. *)
Record smo_state : Type := mkState {
  st_alpha : vector;
  st_b : Q;
  st_draws : nat
}.

(** [(self.alpha * y) @ K[:, i] + self.b - y[i]]. *)
Definition error_at (K : matrix) (y : vector) (st : smo_state) (i : nat) : Q :=
  dot (zip_with Qmult (st_alpha st) y) (col K i) + st_b st - vget y i.

(** The KKT test that guards the update of sample [i]. *)
Definition kkt_violated (self : CustomSVM) (tol yi Ei ai : Q) : bool :=
  (Qltb (yi * Ei) (- tol) && Qltb ai (C self)) ||
  (Qltb tol (yi * Ei) && Qltb 0 ai).

(** [j = i; while j == i: j = np.random.randint(0, n_samples)], with a
    budget of [retries] draws.  Returns [j] and the next position in the
    source. *)
Fixpoint pick_partner (rng : nat -> nat) (retries n i k : nat) : option (nat * nat) :=
  match retries with
  | O => None
  | S r =>
      let j := (rng k mod n)%nat in
      if (j =? i)%nat then pick_partner rng r n i (S k) else Some (j, S k)
  end.

(** The box [L, H] for the new [alpha_j]. *)
Definition bounds (self : CustomSVM) (yi yj ai aj : Q) : Q * Q :=
  if negb (Qeq_bool yi yj)
  then (py_max 0 (aj - ai), py_min (C self) (C self + aj - ai))
  else (py_max 0 (ai + aj - C self), py_min (C self) (ai + aj)).

(** [eta = 2 * K[i, j] - K[i, i] - K[j, j]]. *)
Definition eta_of (K : matrix) (i j : nat) : Q :=
  2 * mget K i j - mget K i i - mget K j j.

(** The clipped new value of [alpha_j]. *)
Definition new_alpha_j (y_j Ei Ej eta aj_old L H : Q) : Q :=
  np_clip (aj_old - y_j * (Ei - Ej) / eta) L H.

(** The statement at which the body of [for i in range(n_samples)] ends,
    with the partner [j] it drew. *)
Inductive exit : Type :=
| Kkt_holds                (* the guard of the update is false *)
| Equal_bounds (j : nat)   (* [if L == H: continue] *)
| Eta_nonneg (j : nat)     (* [if eta >= 0: continue] *)
| Small_change (j : nat)   (* [if abs(self.alpha[j] - alpha_j_old) < 1e-5: continue] *)
| Updated (j : nat).       (* [num_changed += 1] *)

(** The body of [for i in range(n_samples)]: the state and [num_changed]
    after it and the exit taken, or [None] when the partner search runs out
    of draws. *)
Definition smo_body (self : CustomSVM) (rng : nat -> nat) (retries : nat)
    (tol : Q) (K : matrix) (y : vector) (n i : nat)
    (st : smo_state) (num_changed : nat) : option (smo_state * nat * exit) :=
  let Ei := error_at K y st i in
  if kkt_violated self tol (vget y i) Ei (vget (st_alpha st) i) then
    match pick_partner rng retries n i (st_draws st) with
    | None => None
    | Some (j, k') =>
        let Ej := error_at K y st j in
        let alpha_i_old := vget (st_alpha st) i in
        let alpha_j_old := vget (st_alpha st) j in
        let '(L, H) := bounds self (vget y i) (vget y j) alpha_i_old alpha_j_old in
        if Qeq_bool L H
        then Some (mkState (st_alpha st) (st_b st) k', num_changed, Equal_bounds j)
        else
          let eta := eta_of K i j in
          if Qle_bool 0 eta
          then Some (mkState (st_alpha st) (st_b st) k', num_changed, Eta_nonneg j)
          else
            let alpha1 :=
              <[j := new_alpha_j (vget y j) Ei Ej eta alpha_j_old L H]> (st_alpha st) in
            if Qltb (Qabs (vget alpha1 j - alpha_j_old)) eps5
            then Some (mkState alpha1 (st_b st) k', num_changed, Small_change j)
            else
              let alpha2 :=
                <[i := alpha_i_old + vget y i * vget y j * (alpha_j_old - vget alpha1 j)]>
                  alpha1 in
              let b1 := st_b st - Ei
                        - vget y i * (vget alpha2 i - alpha_i_old) * mget K i i
                        - vget y j * (vget alpha2 j - alpha_j_old) * mget K i j in
              let b2 := st_b st - Ej
                        - vget y i * (vget alpha2 i - alpha_i_old) * mget K i j
                        - vget y j * (vget alpha2 j - alpha_j_old) * mget K j j in
              let b' :=
                if Qltb 0 (vget alpha2 i) && Qltb (vget alpha2 i) (C self) then b1
                else if Qltb 0 (vget alpha2 j) && Qltb (vget alpha2 j) (C self) then b2
                else (b1 + b2) / 2 in
              Some (mkState alpha2 b' k', S num_changed, Updated j)
    end
  else Some (st, num_changed, Kkt_holds).

(** The body as a step of the scan: the exit is forgotten. *)
Definition smo_step (self : CustomSVM) (rng : nat -> nat) (retries : nat)
    (tol : Q) (K : matrix) (y : vector) (n i : nat)
    (acc : smo_state * nat) : option (smo_state * nat) :=
  match smo_body self rng retries tol K y n i (fst acc) (snd acc) with
  | None => None
  | Some (st', num_changed', _) => Some (st', num_changed')
  end.

(** [for i in range(lo, lo + len)]. *)
Fixpoint for_range {A : Type} (body : nat -> A -> option A) (lo len : nat) (a : A) : option A :=
  match len with
  | O => Some a
  | S len' =>
      match body lo a with
      | None => None
      | Some a' => for_range body (S lo) len' a'
      end
  end.

(** One outer pass: [num_changed = 0] and the scan of all samples. *)
Definition smo_pass (self : CustomSVM) (rng : nat -> nat) (retries : nat)
    (tol : Q) (K : matrix) (y : vector) (n : nat) (st : smo_state)
  : option (smo_state * nat) :=
  for_range (smo_step self rng retries tol K y n) 0 n (st, O).

(** [for _ in range(max_iter): ...; if num_changed == 0: break].  Besides
    the final state the model records [num_changed] of every pass it ran,
    first pass first. *)
Fixpoint smo_loop (self : CustomSVM) (rng : nat -> nat) (retries : nat)
    (tol : Q) (K : matrix) (y : vector) (n : nat) (max_iter : nat)
    (st : smo_state) : option (smo_state * list nat) :=
  match max_iter with
  | O => Some (st, [])
  | S m =>
      match smo_pass self rng retries tol K y n st with
      | None => None
      | Some (st', num_changed) =>
          if (num_changed =? 0)%nat then Some (st', [num_changed])
          else
            match smo_loop self rng retries tol K y n m st' with
            | None => None
            | Some (st'', trace) => Some (st'', num_changed :: trace)
            end
      end
  end.

(** ** [fit] *)

(** The first two statements of [fit]: [y = y.copy(); y[y == 0] = -1].
    Returns the reference held by the local [y] and the store. *)
Definition normalize_labels (h : heap) (y_ref : loc) : loc * heap :=
  let '(y_loc, h1) := np_copy h y_ref in
  (y_loc, np_assign_where_eq h1 y_loc 0 (-1)).

(** The object after the assignments that precede the kernel call. *)
Definition fit_init (self : CustomSVM) (X : matrix) (y_loc : loc) : CustomSVM :=
  {| kernel := kernel self; C := C self; gamma := gamma self;
     degree := degree self; coef0 := coef0 self;
     alpha := Some (repeat 0 (length X)); b := 0;
     X_train := Some X; y_train := Some y_loc;
     support_vectors := support_vectors self |}.

(** [self.alpha > 1e-5]. *)
Definition sv_mask (a : vector) : list bool := map (fun x => Qltb eps5 x) a.

(** [self.fit(X, y, max_iter, tol)] run on store [h], with the random source
    [rng] (read from position [k0]) and [retries] draws per partner search.
    Also returns the per-pass change counts of the loop. *)
Definition fit_traced (self : CustomSVM) (rng : nat -> nat) (retries k0 : nat)
    (h : heap) (X : matrix) (y_ref : loc) (max_iter : nat) (tol : Q)
  : run * list nat :=
  let '(y_loc, h2) := normalize_labels h y_ref in
  let y := h2 !!! y_loc in
  let n_samples := length X in
  let self1 := fit_init self X y_loc in
  match _kernel self1 X (Some X) with
  | Raise e => (Raises e self1 h2, [])
  | Value K =>
      match smo_loop self1 rng retries tol K y n_samples max_iter
                     (mkState (repeat 0 n_samples) 0 k0) with
      | None => (Diverges, [])
      | Some (st, trace) =>
          let sv_indices := sv_mask (st_alpha st) in
          let '(y_sv, h3) := np_alloc h2 (mask_select sv_indices y) in
          (Returns {| kernel := kernel self; C := C self; gamma := gamma self;
                      degree := degree self; coef0 := coef0 self;
                      alpha := Some (mask_select sv_indices (st_alpha st));
                      b := st_b st;
                      X_train := Some X;
                      y_train := Some y_sv;
                      support_vectors := Some (mask_select sv_indices X) |} h3,
           trace)
      end
  end.

Definition fit (self : CustomSVM) (rng : nat -> nat) (retries k0 : nat)
    (h : heap) (X : matrix) (y_ref : loc) (max_iter : nat) (tol : Q) : run :=
  fst (fit_traced self rng retries k0 h X y_ref max_iter tol).

(** ** Inference *)

(** [np.sign]. *)
Definition np_sign (x : Q) : Q :=
  if Qltb x 0 then -1 else if Qltb 0 x then 1 else 0.

(** [self.decision_function(X)]: [(self.alpha * self.y_train) @ K.T + self.b]. *)
Definition decision_function (self : CustomSVM) (h : heap) (X : matrix) : result vector :=
  match _kernel self X (support_vectors self) with
  | Raise e => Raise e
  | Value K =>
      match alpha self, y_train self with
      | Some a, Some y_loc =>
          Value (map (fun row => dot (zip_with Qmult a (h !!! y_loc)) row + b self) K)
      | _, _ => Raise TypeError_NoneType
      end
  end.

(** [self.predict(X)]: [np.sign(self.decision_function(X))]. *)
Definition predict (self : CustomSVM) (h : heap) (X : matrix) : result vector :=
  match decision_function self h X with
  | Raise e => Raise e
  | Value d => Value (map np_sign d)
  end.

End Model.

(** ** Predicates used in the statements *)

(** A multiplier lies in the box [[0, C]]. *)
Definition in_box (c a : Q) : Prop := 0 <= a <= c.

(** Every label is [-1] or [+1]. *)
Definition labels_signed (y : vector) : Prop :=
  Forall (fun v => v == 1 \/ v == -1) y.

(** The relabelling that [fit] applies to each entry of its copy of [y]. *)
Definition relabel (a : Q) : Q := if Qeq_bool a 0 then -1 else a.

(** The random source never repeats one index [bound] times in a row: among
    any [bound] consecutive draws modulo [n] there is one that differs from
    any given [i].  With a uniform source this holds with probability one
    for some [bound] whenever [n >= 2]. *)
Definition rng_fair (rng : nat -> nat) (n bound : nat) : Prop :=
  forall k i, exists d, (d < bound)%nat /\ (rng (k + d)%nat mod n)%nat <> i.

(** The invariant of the loop: one multiplier per sample, each in the box. *)
Definition loop_inv (self : CustomSVM) (n : nat) (st : smo_state) : Prop :=
  length (st_alpha st) = n /\ Forall (in_box (C self)) (st_alpha st).

(** What the record of change counts of a finished loop looks like: at most
    [max_iter] passes, none but the last without a change, and a last pass
    without a change when the loop stopped before [max_iter]. *)
Definition trace_ok (max_iter : nat) (trace : list nat) : Prop :=
  (length trace <= max_iter)%nat /\
  (forall p, (S p < length trace)%nat -> nth p trace 0%nat <> 0%nat) /\
  ((length trace < max_iter)%nat -> last trace = Some 0%nat).

(** A rational instance of [np.exp] to run examples with: the exponential
    series up to degree four.  The linear kernel does not evaluate it. *)
Definition exp_series (x : Q) : Q :=
  1 + x + x ^ 2 / 2 + x ^ 3 / 6 + x ^ 4 / 24.

(** ** Data of the examples *)

(** [CustomSVM()], the constructor's defaults, and an unsupported kernel. *)
Definition svm_linear : CustomSVM := __init__ "linear" 1 1 3 1.
Definition svm_unknown : CustomSVM := __init__ "unknown" 1 1 3 1.

(** A store whose only array, at reference [0], is the caller's [y]. *)
Definition store_of (y : vector) : heap := {[ 0%nat := y ]}.

(** The random source that draws [0, 1, 2, ...]. *)
Definition rng_count (k : nat) : nat := k.

Definition X_unit : matrix := [[1; 0]; [0; 1]].
Definition X_line : matrix := [[0; 0]; [2; 0]; [4; 0]].
Definition X_far : matrix := [[1000]; [0]].

(** An RBF model, and an object that an earlier training left in some
    state. *)
Definition svm_rbf : CustomSVM := __init__ "rbf" 1 1 3 1.
Definition svm_stale : CustomSVM :=
  {| kernel := "linear"; C := 1; gamma := 1; degree := 3; coef0 := 1;
     alpha := Some [5]; b := 7; X_train := Some [[9]]; y_train := Some 0%nat;
     support_vectors := Some [[9]] |}.

(** ** The notebook's label preparation *)

(** [np.where(y == 0, -1, 1)]. *)
Definition np_where_eq0 (y : vector) : vector :=
  map (fun v => if Qeq_bool v 0 then -1 else 1) y.

(** [y != c], the mask of the entries that differ from [c]. *)
Definition np_ne_mask (y : vector) (c : Q) : list bool :=
  map (fun v => negb (Qeq_bool v c)) y.

(** The preparation of the Iris data for [CustomSVM]:
    [X = X[y != 2]; y = y[y != 2]; y = np.where(y == 0, -1, 1)]. *)
Definition prepare_binary (X : matrix) (y : vector) : matrix * vector :=
  let X1 := mask_select (np_ne_mask y 2) X in
  let y1 := mask_select (np_ne_mask y 2) y in
  (X1, np_where_eq0 y1).

(** ** More predicates used in the statements *)

(** The squared Euclidean distance of two rows. *)
Definition sq_dist (u v : vector) : Q :=
  np_sum (zip_with (fun a c => (a - c) ^ 2) u v).

(** The value [np.sign] can take. *)
Definition is_sign (x : Q) : Prop := x = -1 \/ x = 0 \/ x = 1.

(** Every row of a 2-D array has [d] columns. *)
Definition row_width (d : nat) (X : matrix) : Prop :=
  Forall (fun r => length r = d) X.

(** The arguments of [fit] as numpy arrays of fitting shapes: [X] is a 2-D
    array and [y] has one label per row of [X]. *)
Definition well_shaped (X : matrix) (ys : vector) : Prop :=
  length ys = length X /\ exists d, row_width d X.

(** Two models with the same constructor arguments. *)
Definition same_config (s1 s2 : CustomSVM) : Prop :=
  kernel s1 = kernel s2 /\ C s1 = C s2 /\ gamma s1 = gamma s2 /\
  degree s1 = degree s2 /\ coef0 s1 = coef0 s2.

(** * Properties *)

(** ** Scalars *)

Lemma Qltb_lt x y : Qltb x y = true <-> x < y.
Proof.
  unfold Qltb. rewrite negb_true_iff. split.
  - intros Hb. apply Qnot_le_lt. intros Hle.
    apply Qle_bool_iff in Hle. congruence.
  - intros Hlt. destruct (Qle_bool y x) eqn:E; [|reflexivity].
    apply Qle_bool_iff in E. lra.
Qed.

Lemma Qltb_ge x y : Qltb x y = false <-> y <= x.
Proof. unfold Qltb. rewrite negb_false_iff. apply Qle_bool_iff. Qed.

Lemma py_max_spec a c : a <= py_max a c /\ c <= py_max a c.
Proof.
  unfold py_max. destruct (Qltb a c) eqn:E.
  - apply Qltb_lt in E. lra.
  - apply Qltb_ge in E. lra.
Qed.

Lemma py_max_cases a c : py_max a c = a \/ py_max a c = c.
Proof. unfold py_max. destruct (Qltb a c); auto. Qed.

Lemma py_min_spec a c : py_min a c <= a /\ py_min a c <= c.
Proof.
  unfold py_min. destruct (Qltb c a) eqn:E.
  - apply Qltb_lt in E. lra.
  - apply Qltb_ge in E. lra.
Qed.

Lemma py_min_cases a c : py_min a c = a \/ py_min a c = c.
Proof. unfold py_min. destruct (Qltb c a); auto. Qed.

(** [np.clip] lands in the box when the box is not empty. *)
Lemma np_clip_in_box v lo hi : lo <= hi -> lo <= np_clip v lo hi <= hi.
Proof.
  intros Hbox. unfold np_clip.
  destruct (Qltb v lo) eqn:E1.
  - destruct (Qltb hi lo) eqn:E2.
    + apply Qltb_lt in E2. lra.
    + lra.
  - apply Qltb_ge in E1. destruct (Qltb hi v) eqn:E2.
    + lra.
    + apply Qltb_ge in E2. lra.
Qed.

(** Multiplication and addition of rationals commute on the representation,
    not only up to [==]. *)
Lemma Qmult_comm_L (a c : Q) : a * c = c * a.
Proof. unfold Qmult. f_equal; [apply Z.mul_comm | apply Pos.mul_comm]. Qed.

Lemma Qplus_comm_L (a c : Q) : a + c = c + a.
Proof. unfold Qplus. f_equal; [apply Z.add_comm | apply Pos.mul_comm]. Qed.

Lemma Qmult_2_swap (a c : Q) : 2 * a * c = 2 * c * a.
Proof.
  destruct a as [an ad], c as [cn cd]. unfold Qmult. cbn [Qnum Qden].
  f_equal; [ring | apply Pos.mul_comm].
Qed.

(** ** Arrays *)

Lemma dot_comm (u v : vector) : dot u v = dot v u.
Proof.
  revert v. induction u as [|a u IH]; intros [|c v]; cbn; try reflexivity.
  rewrite IH. f_equal. apply Qmult_comm_L.
Qed.

Lemma dot_double_swap (u v : vector) :
  dot (map (fun x => 2 * x) u) v = dot (map (fun x => 2 * x) v) u.
Proof.
  revert v. induction u as [|a u IH]; intros [|c v]; cbn [map dot]; try reflexivity.
  rewrite IH. f_equal. apply Qmult_2_swap.
Qed.

Lemma nth_map_lt {A B : Type} (f : A -> B) (l : list A) (d : A) (d' : B) (i : nat) :
  (i < length l)%nat -> nth i (map f l) d' = f (nth i l d).
Proof.
  revert i. induction l as [|a l IH]; intros [|i] Hi; cbn in *; try lia; auto.
  apply IH. lia.
Qed.

Lemma mget_map2 (f : list Q -> list Q -> Q) (X1 X2 : matrix) (i j : nat) :
  (i < length X1)%nat -> (j < length X2)%nat ->
  mget (map (fun r1 => map (fun r2 => f r1 r2) X2) X1) i j
  = f (nth i X1 []) (nth j X2 []).
Proof.
  intros Hi Hj. unfold mget.
  rewrite (nth_map_lt _ X1 [] [] i Hi).
  apply (nth_map_lt (fun r2 => f (nth i X1 []) r2) X2 [] 0 j Hj).
Qed.

Lemma mget_matmul_T (X1 X2 : matrix) (i j : nat) :
  (i < length X1)%nat -> (j < length X2)%nat ->
  mget (matmul_T X1 X2) i j = dot (nth i X1 []) (nth j X2 []).
Proof. apply (mget_map2 dot). Qed.

Lemma length_matmul_T_row (X1 X2 : matrix) (i : nat) :
  (i < length X1)%nat -> length (nth i (matmul_T X1 X2) []) = length X2.
Proof.
  intros Hi. unfold matmul_T.
  rewrite (nth_map_lt _ X1 [] [] i Hi). apply length_map.
Qed.

Lemma mget_mat_map (f : Q -> Q) (A : matrix) (i j : nat) :
  (i < length A)%nat -> (j < length (nth i A []))%nat ->
  mget (mat_map f A) i j = f (mget A i j).
Proof.
  intros Hi Hj. unfold mget, mat_map.
  rewrite (nth_map_lt (map f) A [] [] i Hi).
  apply nth_map_lt, Hj.
Qed.

Lemma nth_zip_with_lt {A B D : Type} (f : A -> B -> D) (l : list A) (k : list B)
    (da : A) (db : B) (dd : D) (i : nat) :
  (i < length l)%nat -> (i < length k)%nat ->
  nth i (zip_with f l k) dd = f (nth i l da) (nth i k db).
Proof.
  revert k i. induction l as [|a l IH]; intros [|c k] [|i] Hl Hk; cbn in *; try lia; auto.
  apply IH; lia.
Qed.

Lemma mget_mat_sub (A B : matrix) (i j : nat) :
  (i < length A)%nat -> (i < length B)%nat ->
  (j < length (nth i A []))%nat -> (j < length (nth i B []))%nat ->
  mget (mat_sub A B) i j = mget A i j - mget B i j.
Proof.
  intros HA HB HjA HjB. unfold mget, mat_sub.
  rewrite (nth_zip_with_lt _ A B [] [] [] i HA HB).
  apply nth_zip_with_lt; assumption.
Qed.

(** ** The kernel evaluator *)

Section KernelFacts.

Variable np_exp : Q -> Q.

Lemma kernel_value_supported self X1 X2 K :
  _kernel np_exp self X1 X2 = Value K -> kernel_supported (kernel self) = true.
Proof.
  unfold _kernel, kernel_supported.
  destruct (String.eqb (kernel self) "linear"); [reflexivity|].
  destruct (String.eqb (kernel self) "poly"); [reflexivity|].
  destruct (String.eqb (kernel self) "rbf"); [reflexivity|].
  discriminate.
Qed.

Lemma kernel_supported_value self X1 X2 :
  kernel_supported (kernel self) = true ->
  exists K, _kernel np_exp self X1 (Some X2) = Value K.
Proof.
  unfold _kernel, kernel_supported.
  destruct (String.eqb (kernel self) "linear"); [eauto|].
  destruct (String.eqb (kernel self) "poly"); [eauto|].
  destruct (String.eqb (kernel self) "rbf"); [eauto|].
  discriminate.
Qed.

Lemma length_dists_row (X1 X2 : matrix) (i : nat) :
  (i < length X1)%nat ->
  length (nth i (mat_sub (outer_add (row_sq_sums X1) (row_sq_sums X2))
                         (matmul_T (mat_map (fun x => 2 * x) X1) X2)) [])
  = length X2.
Proof.
  intros Hi. unfold mat_sub.
  rewrite (nth_zip_with_lt _ _ _ [] [] [] i).
  - rewrite length_zip_with. unfold outer_add, row_sq_sums.
    rewrite (nth_map_lt _ _ 0 [] i) by (rewrite length_map; exact Hi).
    rewrite !length_map, length_matmul_T_row
      by (unfold mat_map; rewrite length_map; exact Hi).
    lia.
  - unfold outer_add, row_sq_sums. rewrite !length_map. exact Hi.
  - unfold matmul_T, mat_map. rewrite !length_map. exact Hi.
Qed.

Lemma mget_outer_add (u v : vector) (i j : nat) :
  (i < length u)%nat -> (j < length v)%nat ->
  mget (outer_add u v) i j = vget u i + vget v j.
Proof.
  intros Hi Hj. unfold mget, outer_add, vget.
  rewrite (nth_map_lt _ u 0 [] i Hi).
  apply (nth_map_lt (fun c => nth i u 0 + c) v 0 0 j Hj).
Qed.

Lemma mget_dists (X1 X2 : matrix) (i j : nat) :
  (i < length X1)%nat -> (j < length X2)%nat ->
  mget (mat_sub (outer_add (row_sq_sums X1) (row_sq_sums X2))
                (matmul_T (mat_map (fun x => 2 * x) X1) X2)) i j
  = vget (row_sq_sums X1) i + vget (row_sq_sums X2) j
    - dot (map (fun x => 2 * x) (nth i X1 [])) (nth j X2 []).
Proof.
  intros Hi Hj.
  assert (Hlen : length (mat_map (fun x => 2 * x) X1) = length X1)
    by (unfold mat_map; apply length_map).
  rewrite mget_mat_sub.
  - f_equal.
    + apply mget_outer_add; unfold row_sq_sums; rewrite length_map; assumption.
    + rewrite mget_matmul_T by (rewrite ?Hlen; assumption). f_equal.
      unfold mat_map. apply (nth_map_lt (map (fun x => 2 * x)) X1 [] [] i Hi).
  - unfold outer_add, row_sq_sums. rewrite !length_map. exact Hi.
  - unfold matmul_T. rewrite length_map, Hlen. exact Hi.
  - unfold outer_add, row_sq_sums.
    rewrite (nth_map_lt _ _ 0 [] i) by (rewrite length_map; exact Hi).
    rewrite !length_map. exact Hj.
  - rewrite length_matmul_T_row by (rewrite Hlen; exact Hi). exact Hj.
Qed.

(** C9.  For a supported kernel the Gram matrix [K = _kernel(X, X)] is
    symmetric: [K[i, j] = K[j, i]] for all row indices [i], [j] of [X]. *)
Theorem kernel_gram_symmetric self (X K : matrix) (i j : nat) :
  _kernel np_exp self X (Some X) = Value K ->
  (i < length X)%nat -> (j < length X)%nat ->
  mget K i j = mget K j i.
Proof.
  intros HK Hi Hj. unfold _kernel in HK.
  destruct (String.eqb (kernel self) "linear").
  { injection HK as <-. rewrite !mget_matmul_T by assumption. apply dot_comm. }
  destruct (String.eqb (kernel self) "poly").
  { injection HK as <-.
    rewrite !mget_mat_map
      by (rewrite ?length_matmul_T_row; unfold matmul_T; rewrite ?length_map; assumption).
    rewrite !mget_matmul_T by assumption.
    now rewrite dot_comm. }
  destruct (String.eqb (kernel self) "rbf"); [|discriminate].
  injection HK as <-.
  rewrite !mget_mat_map.
  - rewrite !mget_dists by assumption.
    rewrite dot_double_swap.
    now rewrite (Qplus_comm_L (vget (row_sq_sums X) i)).
  - unfold mat_sub, outer_add, row_sq_sums, matmul_T, mat_map.
    rewrite length_zip_with, !length_map. lia.
  - rewrite length_dists_row; assumption.
  - unfold mat_sub, outer_add, row_sq_sums, matmul_T, mat_map.
    rewrite length_zip_with, !length_map. lia.
  - rewrite length_dists_row; assumption.
Qed.

(** The Gram matrix has one row and one column per sample. *)
Lemma kernel_gram_shape self (X K : matrix) :
  _kernel np_exp self X (Some X) = Value K ->
  length K = length X /\
  forall i, (i < length X)%nat -> length (nth i K []) = length X.
Proof.
  intros HK. unfold _kernel in HK.
  destruct (String.eqb (kernel self) "linear").
  { injection HK as <-. split; [apply length_map|].
    intros i Hi. now apply length_matmul_T_row. }
  destruct (String.eqb (kernel self) "poly").
  { injection HK as <-. unfold mat_map. split.
    - unfold matmul_T. now rewrite !length_map.
    - intros i Hi.
      rewrite (nth_map_lt _ _ [] [] i) by (unfold matmul_T; rewrite length_map; exact Hi).
      rewrite length_map. now apply length_matmul_T_row. }
  destruct (String.eqb (kernel self) "rbf"); [|discriminate].
  injection HK as <-. unfold mat_map. split.
  - unfold mat_sub, outer_add, row_sq_sums, matmul_T, mat_map.
    rewrite length_map, length_zip_with, !length_map. lia.
  - intros i Hi.
    rewrite (nth_map_lt _ _ [] [] i).
    + rewrite length_map. now apply length_dists_row.
    + unfold mat_sub, outer_add, row_sq_sums, matmul_T, mat_map.
      rewrite length_zip_with, !length_map. lia.
Qed.

(** C6.  A kernel name outside ["linear"], ["poly"], ["rbf"] makes every
    kernel evaluation raise the unknown-kernel [ValueError] and no matrix is
    produced; [fit] on such a model raises it too and leaves
    [support_vectors] as it was. *)
Theorem unknown_kernel_raises self :
  kernel_supported (kernel self) = false ->
  (forall X1 X2, _kernel np_exp self X1 X2 = Raise ValueError_unknown_kernel) /\
  (forall rng retries k0 (h : heap) X y_ref max_iter tol,
      exists self' h',
        fit np_exp self rng retries k0 h X y_ref max_iter tol
        = Raises ValueError_unknown_kernel self' h'
        /\ support_vectors self' = support_vectors self).
Proof.
  intros Hk.
  assert (HK : forall s X1 X2, kernel s = kernel self ->
             _kernel np_exp s X1 X2 = Raise ValueError_unknown_kernel).
  { intros s X1 X2 Hs. unfold _kernel. rewrite Hs.
    unfold kernel_supported in Hk.
    destruct (String.eqb (kernel self) "linear"); [discriminate|].
    destruct (String.eqb (kernel self) "poly"); [discriminate|].
    destruct (String.eqb (kernel self) "rbf"); [discriminate|].
    reflexivity. }
  split; [intros; now apply HK|].
  intros rng retries k0 h X y_ref max_iter tol.
  unfold fit, fit_traced.
  destruct (normalize_labels h y_ref) as [y_loc h2].
  rewrite HK by reflexivity. cbn. eauto.
Qed.

(** ** Inference before training *)

(** C5 (amended).  On a freshly constructed model [decision_function] and
    [predict] always raise and return no array.  The exception is one caused
    by the unset support vectors exactly when the kernel name is supported;
    for any other name it is the unknown-kernel [ValueError]. *)
Theorem fresh_model_inference_raises name c g d c0 (h : heap) (X : matrix) :
  exists e,
    decision_function np_exp (__init__ name c g d c0) h X = Raise e /\
    predict np_exp (__init__ name c g d c0) h X = Raise e /\
    not_fitted_error e = kernel_supported name.
Proof.
  unfold predict, decision_function, _kernel, kernel_supported. cbn.
  destruct (String.eqb name "linear"); [eexists; repeat split|].
  destruct (String.eqb name "poly"); [eexists; repeat split|].
  destruct (String.eqb name "rbf"); eexists; repeat split.
Qed.

(** The same holds for any model whose [support_vectors] is still unset, for
    instance one on which [fit] raised. *)
Lemma unfitted_model_raises self (h : heap) (X : matrix) :
  support_vectors self = None ->
  exists e,
    decision_function np_exp self h X = Raise e /\
    predict np_exp self h X = Raise e /\
    not_fitted_error e = kernel_supported (kernel self).
Proof.
  intros Hsv. unfold predict, decision_function, _kernel, kernel_supported.
  rewrite Hsv.
  destruct (String.eqb (kernel self) "linear"); [eexists; repeat split|].
  destruct (String.eqb (kernel self) "poly"); [eexists; repeat split|].
  destruct (String.eqb (kernel self) "rbf"); eexists; repeat split.
Qed.

End KernelFacts.

(** ** The label arrays in the store *)

Section StoreFacts.

Variable np_exp : Q -> Q.

Lemma normalize_labels_spec (h : heap) (y_ref : loc) (ys : vector) :
  h !! y_ref = Some ys ->
  exists y_loc h2,
    normalize_labels h y_ref = (y_loc, h2) /\
    (y_loc ∉ dom h) /\
    h2 !! y_loc = Some (map relabel ys) /\
    (forall l, l ≠ y_loc -> h2 !! l = h !! l).
Proof.
  intros Hy. unfold normalize_labels, np_copy, np_assign_where_eq.
  set (l' := fresh (dom h)).
  assert (Hfresh : l' ∉ dom h) by apply is_fresh.
  exists l', (alter (map (fun a => if Qeq_bool a 0 then -1 else a)) l'
                    (<[l' := h !!! y_ref]> h)).
  split; [reflexivity|]. split; [exact Hfresh|]. split.
  - rewrite lookup_alter_eq, lookup_insert_eq. cbn.
    now rewrite (lookup_total_correct _ _ _ Hy).
  - intros l Hl. rewrite lookup_alter_ne, lookup_insert_ne by congruence. reflexivity.
Qed.

(** Writing [y[y == 0] = -1] through the caller's own reference changes the
    caller's array: the copy is what keeps [fit] from doing so. *)
Lemma assign_in_place_mutates (h : heap) (y_ref : loc) (ys : vector) :
  h !! y_ref = Some ys ->
  np_assign_where_eq h y_ref 0 (-1) !! y_ref = Some (map relabel ys).
Proof.
  intros Hy. unfold np_assign_where_eq. rewrite lookup_alter_eq, Hy. reflexivity.
Qed.

Lemma np_alloc_frame (h : heap) (v : vector) (l : loc) (w : vector) :
  h !! l = Some w -> (np_alloc h v).2 !! l = Some w.
Proof.
  intros Hl. unfold np_alloc. cbn.
  rewrite lookup_insert_ne; [exact Hl|].
  intros <-. apply (is_fresh (dom h)). apply elem_of_dom. eauto.
Qed.

(** C10.  [fit] leaves the caller's label array as it was: the relabelling
    is done on a copy held at another location of the store. *)
Theorem fit_leaves_caller_labels self rng retries k0 (h : heap) (X : matrix)
    (y_ref : loc) max_iter tol (ys : vector) :
  h !! y_ref = Some ys ->
  match fit np_exp self rng retries k0 h X y_ref max_iter tol with
  | Returns _ h' | Raises _ _ h' =>
      h' !! y_ref = Some ys /\
      exists y_loc, y_loc ≠ y_ref /\ h' !! y_loc = Some (map relabel ys)
  | Diverges => True
  end.
Proof.
  intros Hy.
  destruct (normalize_labels_spec h y_ref ys Hy) as (y_loc & h2 & Hn & Hfresh & Hcopy & Hframe).
  assert (Hne : y_loc ≠ y_ref).
  { intros ->. apply Hfresh, elem_of_dom. eauto. }
  assert (Hy2 : h2 !! y_ref = Some ys) by (rewrite Hframe by congruence; exact Hy).
  unfold fit, fit_traced. rewrite Hn.
  destruct (_kernel np_exp (fit_init self X y_loc) X (Some X)) as [K|e]; cbn.
  - destruct (smo_loop _ _ _ _ _ _ _ _ _) as [[st trace]|]; cbn; [|exact I].
    split.
    + now apply np_alloc_frame.
    + exists y_loc. split; [exact Hne|]. now apply np_alloc_frame.
  - split; [exact Hy2|]. exists y_loc. auto.
Qed.

End StoreFacts.

(** ** Partner selection *)

Lemma pick_partner_some rng retries n i k j k' :
  pick_partner rng retries n i k = Some (j, k') ->
  j <> i /\ (k < k')%nat /\ j = (rng (k' - 1)%nat mod n)%nat.
Proof.
  revert k. induction retries as [|r IH]; intros k Hp; cbn in Hp; [discriminate|].
  destruct (Nat.eqb_spec (rng k mod n)%nat i) as [He|Hne].
  - destruct (IH _ Hp) as (Hj & Hk & Hr). repeat split; [exact Hj | lia | exact Hr].
  - injection Hp as <- <-. repeat split; [exact Hne | lia |].
    f_equal. f_equal. lia.
Qed.

Lemma pick_partner_lt rng retries n i k j k' :
  (0 < n)%nat -> pick_partner rng retries n i k = Some (j, k') -> (j < n)%nat.
Proof.
  intros Hn Hp. destruct (pick_partner_some _ _ _ _ _ _ _ Hp) as (_ & _ & ->).
  apply Nat.mod_upper_bound. lia.
Qed.

Lemma pick_partner_within rng n i d :
  forall bound k,
    (d < bound)%nat -> (rng (k + d)%nat mod n)%nat <> i ->
    exists j k', pick_partner rng bound n i k = Some (j, k').
Proof.
  induction d as [|d IH]; intros [|r] k Hd Hne; try lia; cbn.
  - rewrite Nat.add_0_r in Hne.
    destruct (Nat.eqb_spec (rng k mod n)%nat i); [contradiction|eauto].
  - destruct (Nat.eqb_spec (rng k mod n)%nat i); [|eauto].
    apply IH; [lia|]. now replace (S k + d)%nat with (k + S d)%nat by lia.
Qed.

(** With a fair source the search ends within the bound. *)
Lemma pick_partner_fair rng n bound i k :
  rng_fair rng n bound ->
  exists j k', pick_partner rng bound n i k = Some (j, k').
Proof.
  intros Hfair. destruct (Hfair k i) as (d & Hd & Hne).
  now apply (pick_partner_within rng n i d).
Qed.

(** With a single sample every draw is that sample: the search
    [while j == i] of sample [0] never ends. *)
Lemma pick_partner_single rng retries k :
  pick_partner rng retries 1 0 k = None.
Proof.
  revert k. induction retries as [|r IH]; intros k; cbn [pick_partner]; [reflexivity|].
  rewrite Nat.mod_1_r. cbn [Nat.eqb]. apply IH.
Qed.

(** ** Array updates *)

Lemma vget_insert_eq (l : vector) (j : nat) (v : Q) :
  (j < length l)%nat -> vget (<[j := v]> l) j = v.
Proof.
  intros Hj. unfold vget. rewrite nth_lookup, list_lookup_insert_eq by exact Hj.
  reflexivity.
Qed.

Lemma vget_insert_ne (l : vector) (i j : nat) (v : Q) :
  i <> j -> vget (<[j := v]> l) i = vget l i.
Proof.
  intros Hne. unfold vget. rewrite !nth_lookup, list_lookup_insert_ne by congruence.
  reflexivity.
Qed.

Lemma Forall_vget (P : Q -> Prop) (l : vector) (i : nat) :
  Forall P l -> (i < length l)%nat -> P (vget l i).
Proof.
  intros HP Hi. unfold vget.
  destruct (lookup_lt_is_Some_2 l i Hi) as [x Hx].
  rewrite nth_lookup, Hx. cbn. eapply Forall_lookup_1; eauto.
Qed.

(** ** One step of the scan *)

(** The box [[L, H]] lies inside [[0, C]] and is not empty when both
    multipliers are in [[0, C]]. *)
Lemma bounds_in_box self yi yj ai aj L H :
  0 <= C self -> in_box (C self) ai -> in_box (C self) aj ->
  bounds self yi yj ai aj = (L, H) ->
  L <= H /\ 0 <= L /\ H <= C self /\
  (if Qeq_bool yi yj
   then ai + aj - C self <= L /\ H <= ai + aj
   else aj - ai <= L /\ H <= C self + aj - ai).
Proof.
  unfold in_box, bounds. intros HC Hai Haj Hb.
  destruct (Qeq_bool yi yj); cbn in Hb; injection Hb as <- <-; cbn.
  - pose proof (py_max_spec 0 (ai + aj - C self)) as [? ?].
    pose proof (py_min_spec (C self) (ai + aj)) as [? ?].
    destruct (py_max_cases 0 (ai + aj - C self)) as [E1|E1];
      destruct (py_min_cases (C self) (ai + aj)) as [E2|E2];
      rewrite E1, E2 in *; repeat split; lra.
  - pose proof (py_max_spec 0 (aj - ai)) as [? ?].
    pose proof (py_min_spec (C self) (C self + aj - ai)) as [? ?].
    destruct (py_max_cases 0 (aj - ai)) as [E1|E1];
      destruct (py_min_cases (C self) (C self + aj - ai)) as [E2|E2];
      rewrite E1, E2 in *; repeat split; lra.
Qed.

(** The update of [alpha_i] stays in the box when the labels are signed. *)
Lemma alpha_i_update_in_box c yi yj ai aj aj' L H :
  (yi == 1 \/ yi == -1) -> (yj == 1 \/ yj == -1) ->
  L <= aj' <= H -> 0 <= L -> H <= c ->
  (if Qeq_bool yi yj
   then ai + aj - c <= L /\ H <= ai + aj
   else aj - ai <= L /\ H <= c + aj - ai) ->
  in_box c (ai + yi * yj * (aj - aj')).
Proof.
  intros Hyi Hyj Hclip HL HH Hb. unfold in_box.
  destruct (Qeq_bool yi yj) eqn:E.
  - apply Qeq_bool_iff in E.
    assert (Hs : yi * yj * (aj - aj') == aj - aj').
    { destruct Hyi as [Hi|Hi], Hyj as [Hj|Hj]; rewrite Hi, Hj in *; try ring;
        exfalso; revert E; clear; intros E; apply Qeq_bool_iff in E; discriminate. }
    rewrite Hs. lra.
  - apply Qeq_bool_neq in E.
    assert (Hs : yi * yj * (aj - aj') == - (aj - aj')).
    { destruct Hyi as [Hi|Hi], Hyj as [Hj|Hj]; rewrite Hi, Hj in *; try ring;
        exfalso; apply E; reflexivity. }
    rewrite Hs. lra.
Qed.

Lemma smo_body_length self rng retries tol K y n i st nc st' nc' x :
  smo_body self rng retries tol K y n i st nc = Some (st', nc', x) ->
  length (st_alpha st') = length (st_alpha st).
Proof.
  unfold smo_body. intros Hb.
  destruct (kkt_violated _ _ _ _ _); [|injection Hb as <- _ _; reflexivity].
  destruct (pick_partner _ _ _ _ _) as [[j k']|]; [|discriminate].
  destruct (bounds _ _ _ _ _) as [L H].
  destruct (Qeq_bool L H); [injection Hb as <- _ _; reflexivity|].
  destruct (Qle_bool 0 _); [injection Hb as <- _ _; reflexivity|].
  destruct (Qltb _ eps5); injection Hb as <- _ _; cbn; now rewrite ?length_insert.
Qed.

(** The box invariant of the multipliers is kept by the body of the scan
    when [C >= 0] and the labels in use are [-1] or [+1]. *)
Lemma smo_body_in_box self rng retries tol K y n i st nc st' nc' x :
  0 <= C self -> labels_signed y ->
  length (st_alpha st) = n -> length y = n -> (i < n)%nat ->
  Forall (in_box (C self)) (st_alpha st) ->
  smo_body self rng retries tol K y n i st nc = Some (st', nc', x) ->
  Forall (in_box (C self)) (st_alpha st').
Proof.
  intros HC Hy Hla Hly Hi Hbox. unfold smo_body. intros Hb.
  destruct (kkt_violated _ _ _ _ _); [|injection Hb as <- _ _; exact Hbox].
  destruct (pick_partner _ _ _ _ _) as [[j k']|] eqn:Hp; [|discriminate].
  assert (Hj : (j < n)%nat) by (eapply pick_partner_lt; [|exact Hp]; lia).
  destruct (pick_partner_some _ _ _ _ _ _ _ Hp) as (Hji & _ & _).
  destruct (bounds _ _ _ _ _) as [L H] eqn:HLH.
  assert (Hai : in_box (C self) (vget (st_alpha st) i))
    by (apply Forall_vget; [exact Hbox | lia]).
  assert (Haj : in_box (C self) (vget (st_alpha st) j))
    by (apply Forall_vget; [exact Hbox | lia]).
  destruct (bounds_in_box _ _ _ _ _ _ _ HC Hai Haj HLH) as (HLH' & HL & HH & Hcase).
  destruct (Qeq_bool L H); [injection Hb as <- _ _; exact Hbox|].
  destruct (Qle_bool 0 _); [injection Hb as <- _ _; exact Hbox|].
  set (aj' := new_alpha_j _ _ _ _ _ L H) in *.
  assert (Hclip : L <= aj' <= H) by (apply np_clip_in_box; exact HLH').
  assert (Hbox1 : Forall (in_box (C self)) (<[j := aj']> (st_alpha st))).
  { apply Forall_insert; [exact Hbox|]. unfold in_box. lra. }
  destruct (Qltb _ eps5); injection Hb as <- _ _; cbn; [exact Hbox1|].
  apply Forall_insert; [exact Hbox1|].
  rewrite vget_insert_eq by lia.
  eapply alpha_i_update_in_box; eauto.
  - apply (Forall_vget _ y i Hy). lia.
  - apply (Forall_vget _ y j Hy). lia.
Qed.

(** ** The scan and the outer loop *)

Lemma for_range_invariant {A : Type} (P : A -> Prop) (body : nat -> A -> option A) :
  forall len lo a a',
    (forall i x x', (lo <= i < lo + len)%nat -> P x -> body i x = Some x' -> P x') ->
    P a -> for_range body lo len a = Some a' -> P a'.
Proof.
  induction len as [|len IH]; intros lo a a' Hbody Ha Hrun; cbn in Hrun.
  - now injection Hrun as <-.
  - destruct (body lo a) as [a1|] eqn:E; [|discriminate].
    apply (IH (S lo) a1 a'); [| |exact Hrun].
    + intros i x x' Hi. apply Hbody. lia.
    + apply (Hbody lo a a1); [lia | exact Ha | exact E].
Qed.

Lemma for_range_total {A : Type} (P : A -> Prop) (body : nat -> A -> option A) :
  forall len lo a,
    (forall i x, (lo <= i < lo + len)%nat -> P x -> exists x', body i x = Some x' /\ P x') ->
    P a -> exists a', for_range body lo len a = Some a' /\ P a'.
Proof.
  induction len as [|len IH]; intros lo a Hbody Ha; cbn.
  - eauto.
  - destruct (Hbody lo a) as (a1 & E & Ha1); [lia | exact Ha |].
    rewrite E. apply IH; [|exact Ha1].
    intros i x Hi. apply Hbody. lia.
Qed.

Lemma smo_step_body self rng retries tol K y n i st nc st' nc' :
  smo_step self rng retries tol K y n i (st, nc) = Some (st', nc') ->
  exists x, smo_body self rng retries tol K y n i st nc = Some (st', nc', x).
Proof.
  unfold smo_step. cbn.
  destruct (smo_body _ _ _ _ _ _ _ _ _ _) as [[[s c] x]|]; [|discriminate].
  intros [= <- <-]. eauto.
Qed.

Lemma smo_pass_inv self rng retries tol K y n st st' nc :
  0 <= C self -> labels_signed y -> length y = n ->
  loop_inv self n st ->
  smo_pass self rng retries tol K y n st = Some (st', nc) ->
  loop_inv self n st'.
Proof.
  intros HC Hy Hly Hinv Hpass. unfold smo_pass in Hpass.
  apply (for_range_invariant (fun acc => loop_inv self n (fst acc)) _ _ _ _ _)
    with (3 := Hpass); [|exact Hinv].
  intros i [s c] [s' c'] Hi [Hlen Hbox] Hstep. cbn in *.
  destruct (smo_step_body _ _ _ _ _ _ _ _ _ _ _ _ Hstep) as [x Hb].
  split.
  - rewrite <- Hlen. eapply smo_body_length; eauto.
  - eapply smo_body_in_box; eauto. lia.
Qed.

Lemma smo_loop_inv self rng retries tol K y n max_iter :
  forall st st' trace,
    0 <= C self -> labels_signed y -> length y = n ->
    loop_inv self n st ->
    smo_loop self rng retries tol K y n max_iter st = Some (st', trace) ->
    loop_inv self n st'.
Proof.
  induction max_iter as [|m IH]; intros st st' trace HC Hy Hly Hinv Hloop; cbn in Hloop.
  - now injection Hloop as <- _.
  - destruct (smo_pass _ _ _ _ _ _ _ _) as [[s c]|] eqn:Hpass; [|discriminate].
    pose proof (smo_pass_inv _ _ _ _ _ _ _ _ _ _ HC Hy Hly Hinv Hpass) as Hs.
    destruct (c =? 0)%nat; [now injection Hloop as <- _|].
    destruct (smo_loop _ _ _ _ _ _ _ m s) as [[s2 t2]|] eqn:Hrest; [|discriminate].
    injection Hloop as <- _. eapply IH; eauto.
Qed.

(** The number of multipliers never changes, whatever the labels are. *)
Lemma smo_pass_length self rng retries tol K y n st st' nc :
  smo_pass self rng retries tol K y n st = Some (st', nc) ->
  length (st_alpha st') = length (st_alpha st).
Proof.
  intros Hpass. unfold smo_pass in Hpass.
  apply (for_range_invariant
           (fun acc => length (st_alpha (fst acc)) = length (st_alpha st)) _ _ _ _ _)
    with (3 := Hpass); [|reflexivity].
  intros i [s c] [s' c'] _ Hlen Hstep. cbn in *.
  destruct (smo_step_body _ _ _ _ _ _ _ _ _ _ _ _ Hstep) as [x Hb].
  rewrite <- Hlen. eapply smo_body_length; eauto.
Qed.

Lemma smo_loop_length self rng retries tol K y n max_iter :
  forall st st' trace,
    smo_loop self rng retries tol K y n max_iter st = Some (st', trace) ->
    length (st_alpha st') = length (st_alpha st).
Proof.
  induction max_iter as [|m IH]; intros st st' trace Hloop; cbn in Hloop.
  - now injection Hloop as <- _.
  - destruct (smo_pass _ _ _ _ _ _ _ _) as [[s c]|] eqn:Hpass; [|discriminate].
    apply smo_pass_length in Hpass.
    destruct (c =? 0)%nat; [injection Hloop as <- _; exact Hpass|].
    destruct (smo_loop _ _ _ _ _ _ _ m s) as [[s2 t2]|] eqn:Hrest; [|discriminate].
    injection Hloop as <- _. rewrite <- Hpass. eapply IH; eauto.
Qed.

(** With a fair random source every step, scan and loop produces a state. *)
Lemma smo_step_total self rng bound tol K y n i acc :
  rng_fair rng n bound ->
  exists acc', smo_step self rng bound tol K y n i acc = Some acc'.
Proof.
  intros Hfair. unfold smo_step, smo_body.
  destruct (kkt_violated _ _ _ _ _); [|eauto].
  destruct (pick_partner_fair rng n bound i (st_draws (fst acc)) Hfair) as (j & k' & ->).
  destruct (bounds _ _ _ _ _) as [L H].
  destruct (Qeq_bool L H); [eauto|].
  destruct (Qle_bool 0 _); [eauto|].
  destruct (Qltb _ eps5); eauto.
Qed.

Lemma smo_pass_total self rng bound tol K y n st :
  rng_fair rng n bound ->
  exists st' nc, smo_pass self rng bound tol K y n st = Some (st', nc).
Proof.
  intros Hfair. unfold smo_pass.
  destruct (for_range_total (fun _ => True) (smo_step self rng bound tol K y n) n 0 (st, 0%nat))
    as ([st' nc] & E & _); [|exact I|eauto].
  intros i x _ _. destruct (smo_step_total self rng bound tol K y n i x Hfair) as [x' E].
  eauto.
Qed.

Lemma smo_loop_total self rng bound tol K y n max_iter :
  rng_fair rng n bound ->
  forall st, exists st' trace,
    smo_loop self rng bound tol K y n max_iter st = Some (st', trace) /\
    trace_ok max_iter trace.
Proof.
  intros Hfair. unfold trace_ok.
  induction max_iter as [|m IH]; intros st; cbn [smo_loop].
  - exists st, []. cbn. split; [reflexivity|]. split; [lia|].
    split; intros; lia.
  - destruct (smo_pass_total self rng bound tol K y n st Hfair) as (s & c & ->).
    destruct (Nat.eqb_spec c 0) as [->|Hc].
    + exists s, [0%nat]. cbn. split; [reflexivity|]. split; [lia|].
      split; [intros; lia | reflexivity].
    + destruct (IH s) as (s2 & t2 & -> & Hlen & Hmid & Hlast).
      exists s2, (c :: t2). split; [reflexivity|]. cbn [length]. repeat split.
      * lia.
      * intros [|p] Hp; cbn; [exact Hc | apply Hmid; lia].
      * intros Hlt. assert (Hlt' : (length t2 < m)%nat) by lia.
        specialize (Hlast Hlt'). destruct t2 as [|c2 t2]; [discriminate|].
        rewrite last_cons, Hlast. reflexivity.
Qed.

(** ** [fit] as a whole *)

Section FitFacts.

Variable np_exp : Q -> Q.

Lemma kernel_fit_init self X y_loc X1 X2 :
  _kernel np_exp (fit_init self X y_loc) X1 X2 = _kernel np_exp self X1 X2.
Proof. reflexivity. Qed.

(** C8.  With a supported kernel and a random source that is fair for the
    sample count, [fit] returns: its loop runs at most [max_iter] passes,
    every pass but the last one counted a change, and when fewer than
    [max_iter] passes ran the last one counted none. *)
Theorem fit_terminates self rng bound k0 (h : heap) (X : matrix) (y_ref : loc)
    max_iter tol :
  kernel_supported (kernel self) = true ->
  rng_fair rng (length X) bound ->
  exists self' h' trace,
    fit_traced np_exp self rng bound k0 h X y_ref max_iter tol
    = (Returns self' h', trace) /\
    fit np_exp self rng bound k0 h X y_ref max_iter tol = Returns self' h' /\
    trace_ok max_iter trace.
Proof.
  intros Hk Hfair. unfold fit, fit_traced.
  destruct (normalize_labels h y_ref) as [y_loc h2].
  rewrite kernel_fit_init.
  destruct (kernel_supported_value np_exp self X X Hk) as [K ->].
  destruct (smo_loop_total (fit_init self X y_loc) rng bound tol K (h2 !!! y_loc)
              (length X) max_iter Hfair (mkState (repeat 0 (length X)) 0 k0))
    as (st & trace & -> & Htrace).
  cbn. eexists _, _, _. split; [reflexivity|]. split; [reflexivity|]. exact Htrace.
Qed.

(** C2 (amended).  [fit] does not validate its training data.  With a
    supported kernel, a 2-D array [X] and one label per row in [y], it raises
    nothing, whatever the number of rows of [X] and whatever the values of
    the labels; on an [X] without rows it returns a model with no support
    vector. *)
Theorem fit_does_not_validate self rng retries k0 (h : heap) (X : matrix)
    (y_ref : loc) max_iter tol (ys : vector) :
  kernel_supported (kernel self) = true ->
  h !! y_ref = Some ys -> well_shaped X ys ->
  (forall e self' h',
      fit np_exp self rng retries k0 h X y_ref max_iter tol <> Raises e self' h') /\
  (X = [] ->
   exists self' h',
     fit np_exp self rng retries k0 h X y_ref max_iter tol = Returns self' h' /\
     support_vectors self' = Some []).
Proof.
  intros Hk _ _. unfold fit, fit_traced.
  destruct (normalize_labels h y_ref) as [y_loc h2].
  rewrite kernel_fit_init.
  destruct (kernel_supported_value np_exp self X X Hk) as [K ->].
  split.
  - intros e self' h'.
    destruct (smo_loop _ _ _ _ _ _ _ _ _) as [[st trace]|]; cbn; discriminate.
  - intros ->. destruct max_iter as [|m]; cbn; eauto.
Qed.

(** X18.  With one sample whose (relabelled) label [v] has [v * v > tol], and
    [C > 0], the first step always looks for a partner and there is none:
    no retry budget lets [fit] come back. *)
Lemma fit_single_sample_diverges self rng retries k0 (h : heap) (x : list Q)
    (y_ref : loc) (v : Q) m tol :
  kernel_supported (kernel self) = true ->
  h !! y_ref = Some [v] -> 0 < C self -> tol < relabel v * relabel v ->
  fit np_exp self rng retries k0 h [x] y_ref (S m) tol = Diverges.
Proof.
  intros Hk Hy HC Htol. unfold fit, fit_traced.
  destruct (normalize_labels_spec h y_ref [v] Hy) as (y_loc & h2 & -> & _ & Hcopy & _).
  rewrite (lookup_total_correct _ _ _ Hcopy).
  destruct (kernel_supported_value np_exp (fit_init self [x] y_loc) [x] [x] Hk) as [K HK].
  rewrite HK.
  destruct (kernel_gram_shape np_exp _ _ _ HK) as [HlenK Hrow].
  destruct K as [|r [|? ?]]; try discriminate.
  specialize (Hrow 0%nat ltac:(cbn; lia)). cbn in Hrow.
  destruct r as [|k0' [|? ?]]; try discriminate.
  cbn [map length repeat smo_loop smo_pass for_range smo_step fst snd].
  unfold smo_step, smo_body. cbn [fst snd].
  match goal with
  | |- context [kkt_violated ?s ?t ?yi ?Ei ?ai] =>
      assert (Hv : kkt_violated s t yi Ei ai = true)
  end.
  { unfold kkt_violated. apply orb_true_iff. left.
    apply andb_true_iff. fold (relabel v). split; apply Qltb_lt.
    - unfold error_at, vget, col. cbn. lra.
    - cbn. exact HC. }
  rewrite Hv. cbn [st_draws]. rewrite pick_partner_single. reflexivity.
Qed.

End FitFacts.

(** ** The retained support vectors *)

Section RetainFacts.

Variable np_exp : Q -> Q.

Lemma relabel_signed (ys : vector) :
  Forall (fun v => v == 0 \/ v == 1 \/ v == -1) ys ->
  labels_signed (map relabel ys).
Proof.
  unfold labels_signed. induction 1 as [|v ys Hv _ IH]; cbn; constructor; [|exact IH].
  unfold relabel. destruct (Qeq_bool v 0) eqn:E.
  - right. reflexivity.
  - apply Qeq_bool_neq in E. destruct Hv as [Hv|[Hv|Hv]]; [contradiction | auto | auto].
Qed.

Lemma Forall_mask_select {A : Type} (P : A -> Prop) (mask : list bool) (l : list A) :
  Forall P l -> Forall P (mask_select mask l).
Proof.
  intros Hl. revert mask. induction Hl as [|x l Hx _ IH]; intros [|m mask]; cbn;
    try constructor.
  destruct m; [constructor; [exact Hx|apply IH] | apply IH].
Qed.

Lemma sv_mask_retained (a : vector) :
  Forall (fun x => eps5 < x) (mask_select (sv_mask a) a).
Proof.
  induction a as [|x a IH]; cbn; [constructor|].
  destruct (Qltb eps5 x) eqn:E; [|exact IH].
  constructor; [now apply Qltb_lt | exact IH].
Qed.

Lemma sv_mask_nth (a : vector) (k : nat) :
  (k < length a)%nat -> nth k (sv_mask a) false = Qltb eps5 (vget a k).
Proof. intros Hk. unfold sv_mask, vget. now apply nth_map_lt. Qed.

Lemma repeat_in_box (c : Q) (n : nat) : 0 <= c -> Forall (in_box c) (repeat 0 n).
Proof.
  intros Hc. induction n as [|n IH]; cbn; constructor; [|exact IH].
  unfold in_box. lra.
Qed.

(** C7 (amended).  When [fit] returns, let [a] be the multipliers at the end
    of its loop.  The model keeps the rows of [X], the multipliers and the
    (relabelled) labels of exactly the samples [k] with [a[k] > 1e-5], in
    order: every kept multiplier exceeds [1e-5] and a sample is dropped only
    if its multiplier is at most [1e-5].  The whole feature matrix stays in
    [X_train].  ([X] is a 2-D array and [y] has one label per row.) *)
Theorem fit_keeps_support_vectors self rng retries k0 (h : heap) (X : matrix)
    (y_ref : loc) max_iter tol (ys : vector) self' h' :
  h !! y_ref = Some ys -> well_shaped X ys ->
  fit np_exp self rng retries k0 h X y_ref max_iter tol = Returns self' h' ->
  exists K y_loc st trace,
    _kernel np_exp self X (Some X) = Value K /\
    smo_loop (fit_init self X y_loc) rng retries tol K (map relabel ys)
             (length X) max_iter (mkState (repeat 0 (length X)) 0 k0)
    = Some (st, trace) /\
    length (st_alpha st) = length X /\
    alpha self' = Some (mask_select (sv_mask (st_alpha st)) (st_alpha st)) /\
    support_vectors self' = Some (mask_select (sv_mask (st_alpha st)) X) /\
    (exists l, y_train self' = Some l /\
               h' !! l = Some (mask_select (sv_mask (st_alpha st)) (map relabel ys))) /\
    b self' = st_b st /\
    X_train self' = Some X /\
    Forall (fun x => eps5 < x) (mask_select (sv_mask (st_alpha st)) (st_alpha st)) /\
    (forall k, (k < length X)%nat ->
               nth k (sv_mask (st_alpha st)) false = false ->
               vget (st_alpha st) k <= eps5).
Proof.
  intros Hy _. unfold fit, fit_traced.
  destruct (normalize_labels_spec h y_ref ys Hy) as (y_loc & h2 & -> & _ & Hcopy & _).
  rewrite (lookup_total_correct _ _ _ Hcopy). rewrite kernel_fit_init.
  destruct (_kernel np_exp self X (Some X)) as [K|e]; [|discriminate].
  fold relabel.
  destruct (smo_loop _ _ _ _ _ _ _ _ _) as [[st trace]|] eqn:Hloop; [|discriminate].
  cbn. intros [= <- <-].
  pose proof (smo_loop_length _ _ _ _ _ _ _ _ _ _ _ Hloop) as Hlen.
  cbn in Hlen. rewrite repeat_length in Hlen.
  exists K, y_loc, st, trace. cbn.
  split; [reflexivity|]. split; [exact Hloop|]. split; [exact Hlen|].
  split; [reflexivity|]. split; [reflexivity|].
  split; [eexists; split; [reflexivity|apply lookup_insert_eq]|].
  split; [reflexivity|]. split; [reflexivity|].
  split; [apply sv_mask_retained|].
  intros k Hk Hm. rewrite sv_mask_nth in Hm by lia. now apply Qltb_ge.
Qed.

(** In exact arithmetic, with [C >= 0] and labels that are all [0], [1] or
    [-1], the multipliers a returning [fit] keeps are at most [C].  (In
    float64 the unclipped update of [alpha_i] is rounded and can end one
    unit in the last place above [C].) *)
Lemma retained_multipliers_in_box_exact self rng retries k0 (h : heap) (X : matrix)
    (y_ref : loc) max_iter tol (ys : vector) self' h' :
  h !! y_ref = Some ys -> length ys = length X ->
  0 <= C self -> Forall (fun v => v == 0 \/ v == 1 \/ v == -1) ys ->
  fit np_exp self rng retries k0 h X y_ref max_iter tol = Returns self' h' ->
  exists a, alpha self' = Some a /\ Forall (in_box (C self)) a.
Proof.
  intros Hy Hlys HC Hys. unfold fit, fit_traced.
  destruct (normalize_labels_spec h y_ref ys Hy) as (y_loc & h2 & -> & _ & Hcopy & _).
  rewrite (lookup_total_correct _ _ _ Hcopy). rewrite kernel_fit_init.
  destruct (_kernel np_exp self X (Some X)) as [K|e]; [|discriminate].
  fold relabel.
  destruct (smo_loop _ _ _ _ _ _ _ _ _) as [[st trace]|] eqn:Hloop; [|discriminate].
  cbn. intros [= <- <-]. eexists. split; [reflexivity|].
  apply Forall_mask_select.
  assert (Hinv : loop_inv (fit_init self X y_loc) (length X) st).
  { eapply smo_loop_inv;
      [exact HC | exact (relabel_signed ys Hys) | now rewrite length_map | | exact Hloop].
    split; cbn; [apply repeat_length | now apply repeat_in_box]. }
  apply Hinv.
Qed.

End RetainFacts.

(** ** The skip on a negligible change *)

(** C3 (amended).  When the body ends at the skip taken because the clipped
    [alpha_j] moved by less than [1e-5], [alpha_i], every multiplier other
    than [alpha_j], the bias and the change count are as before; [alpha_j]
    holds its clipped new value, less than [1e-5] away from the old one. *)
Theorem small_change_exit_effect self rng retries tol K y n i st nc st' nc' j :
  smo_body self rng retries tol K y n i st nc = Some (st', nc', Small_change j) ->
  j <> i /\
  vget (st_alpha st') i = vget (st_alpha st) i /\
  (forall k, k <> j -> vget (st_alpha st') k = vget (st_alpha st) k) /\
  st_b st' = st_b st /\
  nc' = nc /\
  st_alpha st'
  = <[j := new_alpha_j (vget y j) (error_at K y st i) (error_at K y st j)
                       (eta_of K i j) (vget (st_alpha st) j)
                       (fst (bounds self (vget y i) (vget y j)
                                    (vget (st_alpha st) i) (vget (st_alpha st) j)))
                       (snd (bounds self (vget y i) (vget y j)
                                    (vget (st_alpha st) i) (vget (st_alpha st) j)))]>
      (st_alpha st) /\
  Qabs (vget (st_alpha st') j - vget (st_alpha st) j) < eps5.
Proof.
  unfold smo_body.
  destruct (kkt_violated _ _ _ _ _); [|discriminate].
  destruct (pick_partner _ _ _ _ _) as [[j' k']|] eqn:Hp; [|discriminate].
  destruct (pick_partner_some _ _ _ _ _ _ _ Hp) as (Hji & _ & _).
  destruct (bounds _ _ _ _ _) as [L H] eqn:HLH.
  destruct (Qeq_bool L H); [discriminate|].
  destruct (Qle_bool 0 _); [discriminate|].
  destruct (Qltb _ eps5) eqn:Hsmall; [|discriminate].
  intros [= <- <- <-]. rewrite HLH. cbn [st_alpha st_b fst snd].
  split; [exact Hji|].
  split; [apply vget_insert_ne; congruence|].
  split; [intros k Hk; now apply vget_insert_ne|].
  split; [reflexivity|]. split; [reflexivity|]. split; [reflexivity|].
  now apply Qltb_lt.
Qed.

(** * The claims on concrete runs *)

(** C1.  [fit] called with the two-valued labels [[0, 2]] trains on the
    labels [[-1, 2]]: the value [0] becomes [-1] but the other value is not
    mapped to [+1], although the comment of the statement says "Convert
    class 0 to -1, others to 1". *)
Theorem fit_keeps_label_two :
  exists self' h' l,
    fit exp_series svm_linear rng_count 2 0 (store_of [0; 2]) X_unit 0%nat 10 (1 # 1000)
    = Returns self' h' /\
    y_train self' = Some l /\
    h' !! l = Some [-1; 2] /\
    ~ labels_signed [-1; 2].
Proof.
  eexists _, _, _. split; [vm_compute; reflexivity|].
  split; [reflexivity|]. split; [vm_compute; reflexivity|].
  intros Hs. inversion Hs as [|v l Hv Hl]; subst. inversion Hl as [|v' l' Hv' _]; subst.
  destruct Hv' as [E|E]; vm_compute in E; discriminate.
Qed.

(** C4.  On the labels [[-1, 2]] that [fit] keeps for the caller's [[0, 2]],
    the first step of the scan takes the multipliers from [[0, 0]], inside
    the box [[0, C]] with [C = 1], to [[2, 1]]: [alpha_0 = 2] is outside.
    [fit] on that input returns the multipliers [[2, 1]]. *)
Theorem step_leaves_box_on_label_two :
  (exists st' nc',
      smo_body svm_linear rng_count 2 (1 # 1000) (matmul_T X_unit X_unit) [-1; 2]
               2 0 (mkState [0; 0] 0 0) 0
      = Some (st', nc', Updated 1) /\
      Forall (in_box (C svm_linear)) [0; 0] /\
      map Qred (st_alpha st') = [2; 1] /\
      ~ Forall (in_box (C svm_linear)) (st_alpha st')) /\
  (exists self' h',
      fit exp_series svm_linear rng_count 2 0 (store_of [0; 2]) X_unit 0%nat 10 (1 # 1000)
      = Returns self' h' /\
      option_map (map Qred) (alpha self') = Some [2; 1]).
Proof.
  split.
  - eexists _, _. split; [vm_compute; reflexivity|].
    split; [repeat constructor; vm_compute; discriminate|].
    split; [vm_compute; reflexivity|].
    intros Hb. inversion Hb as [|a l Ha _]; subst.
    destruct Ha as [_ Ha]. vm_compute in Ha. apply Ha. reflexivity.
  - eexists _, _. split; vm_compute; reflexivity.
Qed.

(** C2, as stated, fails: on two samples with the single label [1] [fit]
    raises nothing and returns a model, one without support vectors. *)
Lemma fit_trains_on_one_class :
  exists self' h',
    fit exp_series svm_linear rng_count 2 0 (store_of [1; 1]) X_unit 0%nat 10 (1 # 1000)
    = Returns self' h' /\
    support_vectors self' = Some [].
Proof. eexists _, _. split; vm_compute; reflexivity. Qed.

Lemma fit_does_not_validate_witness :
  kernel_supported (kernel svm_linear) = true /\
  store_of [] !! 0%nat = Some [] /\
  well_shaped [] [] /\
  (forall e self' h',
      fit exp_series svm_linear rng_count 2 0 (store_of []) [] 0%nat 10 (1 # 1000)
      <> Raises e self' h') /\
  (([] : matrix) = [] ->
   exists self' h',
     fit exp_series svm_linear rng_count 2 0 (store_of []) [] 0%nat 10 (1 # 1000)
     = Returns self' h' /\
     support_vectors self' = Some []).
Proof.
  assert (Hshape : well_shaped [] [])
    by (split; [reflexivity | exists 0%nat; constructor]).
  split; [reflexivity|]. split; [reflexivity|]. split; [exact Hshape|].
  apply (fit_does_not_validate exp_series svm_linear rng_count 2 0 (store_of []) []
           0%nat 10 (1 # 1000) [] eq_refl eq_refl Hshape).
Defined.

(** C3, as stated, fails: with rows [[1000]] and [[0]] and labels [-1], [1]
    the clipped [alpha_1] moves from [0] to [2/1000000], the body leaves by
    the small-change skip, and [alpha_1] keeps the new value. *)
Lemma small_change_moves_alpha_j :
  exists st' nc',
    smo_body svm_linear rng_count 2 (1 # 1000) (matmul_T X_far X_far) [-1; 1]
             2 0 (mkState [0; 0] 0 0) 0
    = Some (st', nc', Small_change 1) /\
    vget (st_alpha st') 1 == 2 # 1000000 /\
    ~ vget (st_alpha st') 1 == vget [0; 0] 1.
Proof.
  eexists _, _. split; [vm_compute; reflexivity|].
  split; [vm_compute; reflexivity|].
  intros E. vm_compute in E. discriminate.
Qed.

Lemma small_change_exit_effect_witness :
  exists st',
    smo_body svm_linear rng_count 2 (1 # 1000) (matmul_T X_far X_far) [-1; 1]
             2 0 (mkState [0; 0] 0 0) 0
    = Some (st', 0%nat, Small_change 1) /\
    vget (st_alpha st') 0 = vget [0; 0] 0 /\
    st_b st' = 0 /\
    Qabs (vget (st_alpha st') 1 - vget [0; 0] 1) < eps5.
Proof.
  eexists. split; [vm_compute; reflexivity|].
  destruct (small_change_exit_effect svm_linear rng_count 2 (1 # 1000)
              (matmul_T X_far X_far) [-1; 1] 2 0 (mkState [0; 0] 0 0) 0 _ 0 1
              ltac:(vm_compute; reflexivity))
    as (_ & Hi & _ & Hb & _ & _ & Hsmall).
  split; [exact Hi|]. split; [exact Hb|exact Hsmall].
Defined.

(** C5, as stated, fails: on a fresh model with an unsupported kernel name
    [predict] and [decision_function] raise the unknown-kernel [ValueError]
    of [_kernel], which has nothing to do with the missing training. *)
Lemma unknown_kernel_model_predict :
  predict exp_series svm_unknown ∅ [[1]] = Raise ValueError_unknown_kernel /\
  decision_function exp_series svm_unknown ∅ [[1]] = Raise ValueError_unknown_kernel /\
  not_fitted_error ValueError_unknown_kernel = false.
Proof. repeat split. Qed.

Lemma unknown_kernel_raises_witness :
  kernel_supported (kernel svm_unknown) = false /\
  _kernel exp_series svm_unknown X_unit (Some X_unit) = Raise ValueError_unknown_kernel /\
  exists self' h',
    fit exp_series svm_unknown rng_count 2 0 (store_of [0; 1]) X_unit 0%nat 10 (1 # 1000)
    = Raises ValueError_unknown_kernel self' h' /\
    support_vectors self' = support_vectors svm_unknown.
Proof.
  split; [reflexivity|].
  destruct (unknown_kernel_raises exp_series svm_unknown eq_refl) as [Hk Hfit].
  split; [apply Hk | apply Hfit].
Defined.

(** C7, as stated, fails: after training on three samples of which the
    third gets multiplier [0] and is left out of the support vectors,
    [X_train] still holds all three rows. *)
Lemma fit_keeps_training_matrix :
  exists self' h',
    fit exp_series svm_linear rng_count 3 0 (store_of [0; 1; 1]) X_line 0%nat 20 (1 # 1000)
    = Returns self' h' /\
    support_vectors self' = Some [[0; 0]; [2; 0]] /\
    X_train self' = Some [[0; 0]; [2; 0]; [4; 0]].
Proof. eexists _, _. repeat split; vm_compute; reflexivity. Qed.

Lemma fit_keeps_support_vectors_witness :
  store_of [0; 1; 1] !! 0%nat = Some [0; 1; 1] /\
  well_shaped X_line [0; 1; 1] /\
  exists self' h',
    fit exp_series svm_linear rng_count 3 0 (store_of [0; 1; 1]) X_line 0%nat 20 (1 # 1000)
    = Returns self' h' /\
    alpha self' = Some [2 # 4; 2 # 4] /\
    support_vectors self' = Some [[0; 0]; [2; 0]] /\
    Forall (fun x => eps5 < x) [2 # 4; 2 # 4] /\
    X_train self' = Some X_line.
Proof.
  assert (Hshape : well_shaped X_line [0; 1; 1])
    by (split; [reflexivity | exists 2%nat; repeat constructor]).
  split; [reflexivity|]. split; [exact Hshape|].
  eexists _, _. split; [vm_compute; reflexivity|].
  destruct (fit_keeps_support_vectors exp_series svm_linear rng_count 3 0
              (store_of [0; 1; 1]) X_line 0%nat 20 (1 # 1000) [0; 1; 1] _ _
              eq_refl Hshape ltac:(vm_compute; reflexivity))
    as (K & y_loc & st & trace & _ & _ & _ & Ha & Hsv & _ & _ & HX & Hlow & _).
  cbn in Ha. injection Ha as Ha. rewrite <- Ha in Hlow.
  split; [reflexivity|]. split; [reflexivity|]. split; [exact Hlow | exact HX].
Defined.

(** The counting source modulo two alternates, so it is fair with bound 2. *)
Lemma rng_count_fair : rng_fair rng_count 2 2.
Proof.
  intros k i. unfold rng_count.
  destruct (Nat.eq_dec (k mod 2) i) as [E|E].
  - exists 1%nat. split; [lia|]. subst i.
    pose proof (Nat.div_mod_eq k 2). pose proof (Nat.div_mod_eq (k + 1) 2).
    pose proof (Nat.mod_upper_bound k 2). pose proof (Nat.mod_upper_bound (k + 1) 2).
    lia.
  - exists 0%nat. split; [lia|]. now rewrite Nat.add_0_r.
Qed.

Lemma fit_terminates_witness :
  kernel_supported (kernel svm_linear) = true /\
  rng_fair rng_count (length X_unit) 2 /\
  exists self' h' trace,
    fit exp_series svm_linear rng_count 2 0 (store_of [0; 1]) X_unit 0%nat 10 (1 # 1000)
    = Returns self' h' /\
    fit_traced exp_series svm_linear rng_count 2 0 (store_of [0; 1]) X_unit 0%nat 10
               (1 # 1000)
    = (Returns self' h', trace) /\
    trace_ok 10 trace.
Proof.
  split; [reflexivity|]. split; [exact rng_count_fair|].
  destruct (fit_terminates exp_series svm_linear rng_count 2 0 (store_of [0; 1]) X_unit
              0%nat 10 (1 # 1000) eq_refl rng_count_fair)
    as (self' & h' & trace & Ht & Hf & Hok).
  exists self', h', trace. auto.
Defined.

Lemma kernel_gram_symmetric_witness :
  _kernel exp_series svm_linear X_line (Some X_line) = Value (matmul_T X_line X_line) /\
  (1 < length X_line)%nat /\ (2 < length X_line)%nat /\
  mget (matmul_T X_line X_line) 1 2 = mget (matmul_T X_line X_line) 2 1.
Proof.
  split; [reflexivity|]. split; [cbn; lia|]. split; [cbn; lia|].
  apply (kernel_gram_symmetric exp_series svm_linear X_line (matmul_T X_line X_line) 1 2);
    [reflexivity | cbn; lia | cbn; lia].
Defined.

Lemma fit_leaves_caller_labels_witness :
  store_of [0; 1] !! 0%nat = Some [0; 1] /\
  exists self' h',
    fit exp_series svm_linear rng_count 2 0 (store_of [0; 1]) X_unit 0%nat 10 (1 # 1000)
    = Returns self' h' /\
    h' !! 0%nat = Some [0; 1].
Proof.
  split; [reflexivity|].
  pose proof (fit_leaves_caller_labels exp_series svm_linear rng_count 2 0
                (store_of [0; 1]) X_unit 0%nat 10 (1 # 1000) [0; 1] eq_refl) as Hfit.
  destruct (fit exp_series svm_linear rng_count 2 0 (store_of [0; 1]) X_unit 0%nat 10
                (1 # 1000)) as [self' h'| |] eqn:E.
  - exists self', h'. split; [reflexivity | apply Hfit].
  - vm_compute in E. discriminate.
  - vm_compute in E. discriminate.
Defined.

(** * Further properties of the kernel evaluator *)

Section KernelMore.

Variable np_exp : Q -> Q.

Lemma np_sum_sq_dot (u : vector) : np_sum (map (fun x => x ^ 2) u) == dot u u.
Proof.
  induction u as [|a u IH]; cbn [map np_sum dot]; [reflexivity|].
  rewrite IH. ring.
Qed.

Lemma dot_double (u v : vector) : dot (map (fun x => 2 * x) u) v == 2 * dot u v.
Proof.
  revert v. induction u as [|a u IH]; intros [|c v]; cbn [map dot]; try ring.
  rewrite IH. ring.
Qed.

(** The expansion [|u|^2 + |v|^2 - 2 u.v] is the squared distance. *)
Lemma sq_dist_expansion (u v : vector) :
  length u = length v ->
  dot u u + dot v v - 2 * dot u v == sq_dist u v.
Proof.
  unfold sq_dist. revert v.
  induction u as [|a u IH]; intros [|c v] Hlen; cbn in Hlen; try discriminate.
  - cbn. ring.
  - cbn [dot zip_with np_sum]. rewrite <- IH by congruence. ring.
Qed.

Lemma Qsquare_nonneg (x : Q) : 0 <= x ^ 2.
Proof.
  assert (E : x ^ 2 == x * x) by ring. rewrite E.
  destruct (Qlt_le_dec x 0) as [Hneg|Hpos].
  - assert (Hm : 0 <= (- x) * (- x)) by (apply Qmult_le_0_compat; lra).
    assert (E2 : - x * - x == x * x) by ring. now rewrite <- E2.
  - now apply Qmult_le_0_compat.
Qed.

Lemma sq_dist_nonneg (u v : vector) : 0 <= sq_dist u v.
Proof.
  unfold sq_dist. revert v.
  induction u as [|a u IH]; intros [|c v]; cbn [zip_with np_sum]; try lra.
  specialize (IH v).
  pose proof (Qsquare_nonneg (a - c)).
  lra.
Qed.

(** X1.  For a supported kernel, [_kernel(X1, X2)] has one row per row of
    [X1] and one column per row of [X2], also when [X1] and [X2] differ. *)
Theorem kernel_shape self (X1 X2 K : matrix) :
  _kernel np_exp self X1 (Some X2) = Value K ->
  length K = length X1 /\
  forall i, (i < length X1)%nat -> length (nth i K []) = length X2.
Proof.
  intros HK. unfold _kernel in HK.
  destruct (String.eqb (kernel self) "linear").
  { injection HK as <-. split; [apply length_map|].
    intros i Hi. now apply length_matmul_T_row. }
  destruct (String.eqb (kernel self) "poly").
  { injection HK as <-. unfold mat_map. split.
    - unfold matmul_T. now rewrite !length_map.
    - intros i Hi.
      rewrite (nth_map_lt _ _ [] [] i) by (unfold matmul_T; rewrite length_map; exact Hi).
      rewrite length_map. now apply length_matmul_T_row. }
  destruct (String.eqb (kernel self) "rbf"); [|discriminate].
  injection HK as <-. unfold mat_map. split.
  - unfold mat_sub, outer_add, row_sq_sums, matmul_T, mat_map.
    rewrite length_map, length_zip_with, !length_map. lia.
  - intros i Hi.
    rewrite (nth_map_lt _ _ [] [] i).
    + rewrite length_map. now apply length_dists_row.
    + unfold mat_sub, outer_add, row_sq_sums, matmul_T, mat_map.
      rewrite length_zip_with, !length_map. lia.
Qed.

(** X2.  With the RBF kernel the entry [K[i, j]] is [np.exp(-gamma * d)]
    where [d], the value of the expansion the code computes, equals the
    squared Euclidean distance of row [i] of [X1] and row [j] of [X2]. *)
Theorem rbf_entry_uses_sq_dist self (X1 X2 K : matrix) (i j : nat) :
  kernel self = "rbf" ->
  _kernel np_exp self X1 (Some X2) = Value K ->
  (i < length X1)%nat -> (j < length X2)%nat ->
  length (nth i X1 []) = length (nth j X2 []) ->
  exists d, mget K i j = np_exp (- gamma self * d) /\
            d == sq_dist (nth i X1 []) (nth j X2 []).
Proof.
  intros Hk HK Hi Hj Hrow. unfold _kernel in HK. rewrite Hk in HK. cbn in HK.
  injection HK as <-.
  eexists. split.
  - rewrite mget_mat_map; [reflexivity| |].
    + unfold mat_sub, outer_add, row_sq_sums, matmul_T, mat_map.
      rewrite length_zip_with, !length_map. lia.
    + rewrite length_dists_row; assumption.
  - rewrite mget_dists by assumption.
    unfold vget, row_sq_sums.
    rewrite (nth_map_lt _ X1 [] 0 i Hi), (nth_map_lt _ X2 [] 0 j Hj).
    rewrite !np_sum_sq_dot, dot_double. now apply sq_dist_expansion.
Qed.

(** X3.  In exact arithmetic, with the linear kernel and rows of equal
    length, [eta = 2 K[i,j] - K[i,i] - K[j,j]] is minus the squared distance
    of the two rows, hence at most zero.  (In float64 the three products are
    rounded, and [eta] of two nearly equal rows can come out zero or
    positive.) *)
Theorem linear_eta_nonpositive self (X K : matrix) (i j : nat) :
  kernel self = "linear" ->
  _kernel np_exp self X (Some X) = Value K ->
  (i < length X)%nat -> (j < length X)%nat ->
  length (nth i X []) = length (nth j X []) ->
  eta_of K i j == - sq_dist (nth i X []) (nth j X []) /\ eta_of K i j <= 0.
Proof.
  intros Hk HK Hi Hj Hrow. unfold _kernel in HK. rewrite Hk in HK. cbn in HK.
  injection HK as <-.
  assert (E : eta_of (matmul_T X X) i j == - sq_dist (nth i X []) (nth j X [])).
  { unfold eta_of. rewrite !mget_matmul_T by assumption.
    rewrite <- sq_dist_expansion by exact Hrow. ring. }
  split; [exact E|]. rewrite E.
  pose proof (sq_dist_nonneg (nth i X []) (nth j X [])). lra.
Qed.

End KernelMore.

(** * Further properties of the SMO loop *)

(** X4.  The partner search returns another sample, a valid index, and uses
    at least one and at most [retries] draws. *)
Theorem partner_is_other_sample rng retries n i k j k' :
  (0 < n)%nat ->
  pick_partner rng retries n i k = Some (j, k') ->
  j <> i /\ (j < n)%nat /\ (k < k' <= k + retries)%nat.
Proof.
  intros Hn Hp. split; [|split].
  - now destruct (pick_partner_some _ _ _ _ _ _ _ Hp).
  - eapply pick_partner_lt; eauto.
  - revert k Hp. induction retries as [|r IH]; intros k Hp; cbn in Hp; [discriminate|].
    destruct (rng k mod n =? i)%nat.
    + apply IH in Hp. lia.
    + injection Hp as _ <-. lia.
Qed.

(** X5.  Whatever the labels are, the new [alpha_j] that a step writes lies
    in [[0, C]], provided [C >= 0] and the multipliers were in [[0, C]]. *)
Theorem partner_multiplier_in_box self rng retries tol K y n i st nc st' nc' x j :
  0 <= C self -> length (st_alpha st) = n -> (i < n)%nat ->
  Forall (in_box (C self)) (st_alpha st) ->
  smo_body self rng retries tol K y n i st nc = Some (st', nc', x) ->
  x = Small_change j \/ x = Updated j ->
  in_box (C self) (vget (st_alpha st') j).
Proof.
  intros HC Hla Hi Hbox. unfold smo_body. intros Hb Hx.
  destruct (kkt_violated _ _ _ _ _);
    [|injection Hb as _ _ <-; destruct Hx; discriminate].
  destruct (pick_partner _ _ _ _ _) as [[j' k']|] eqn:Hp; [|discriminate].
  assert (Hj : (j' < n)%nat) by (eapply pick_partner_lt; [|exact Hp]; lia).
  destruct (pick_partner_some _ _ _ _ _ _ _ Hp) as (Hji & _ & _).
  destruct (bounds _ _ _ _ _) as [L H] eqn:HLH.
  assert (Hai : in_box (C self) (vget (st_alpha st) i))
    by (apply Forall_vget; [exact Hbox | lia]).
  assert (Haj : in_box (C self) (vget (st_alpha st) j'))
    by (apply Forall_vget; [exact Hbox | lia]).
  destruct (bounds_in_box _ _ _ _ _ _ _ HC Hai Haj HLH) as (HLH' & HL & HH & _).
  destruct (Qeq_bool L H); [injection Hb as _ _ <-; destruct Hx; discriminate|].
  destruct (Qle_bool 0 _); [injection Hb as _ _ <-; destruct Hx; discriminate|].
  set (aj' := new_alpha_j _ _ _ _ _ L H) in *.
  assert (Hclip : L <= aj' <= H) by (apply np_clip_in_box; exact HLH').
  assert (Hin : in_box (C self) aj') by (unfold in_box; lra).
  destruct (Qltb _ eps5); injection Hb as <- _ <-;
    destruct Hx as [Hx|Hx]; try discriminate; injection Hx as <-; cbn [st_alpha].
  - rewrite vget_insert_eq by lia. exact Hin.
  - rewrite vget_insert_ne by congruence. rewrite vget_insert_eq by lia. exact Hin.
Qed.

(** X6.  With labels in [{-1, +1}] and [C >= 0], every multiplier is in
    [[0, C]] after any number of passes of the loop, and there is still one
    multiplier per sample. *)
Theorem signed_labels_keep_box self rng retries tol K y n max_iter st st' trace :
  0 <= C self -> labels_signed y -> length y = n ->
  length (st_alpha st) = n -> Forall (in_box (C self)) (st_alpha st) ->
  smo_loop self rng retries tol K y n max_iter st = Some (st', trace) ->
  length (st_alpha st') = n /\ Forall (in_box (C self)) (st_alpha st').
Proof.
  intros HC Hy Hly Hla Hbox Hloop.
  apply (smo_loop_inv self rng retries tol K y n max_iter st st' trace HC Hy Hly);
    [split; assumption | exact Hloop].
Qed.



(** What each exit of the body leaves as it was. *)
Lemma smo_body_exit_effect self rng retries tol K y n i st nc st' nc' x :
  smo_body self rng retries tol K y n i st nc = Some (st', nc', x) ->
  match x with
  | Updated _ => nc' = S nc
  | Small_change _ => nc' = nc /\ st_b st' = st_b st
  | Kkt_holds | Equal_bounds _ | Eta_nonneg _ =>
      nc' = nc /\ st_b st' = st_b st /\ st_alpha st' = st_alpha st
  end.
Proof.
  unfold smo_body. intros Hb.
  destruct (kkt_violated _ _ _ _ _); [|injection Hb as <- <- <-; auto].
  destruct (pick_partner _ _ _ _ _) as [[j' k']|]; [|discriminate].
  destruct (bounds _ _ _ _ _) as [L H].
  destruct (Qeq_bool L H); [injection Hb as <- <- <-; auto|].
  destruct (Qle_bool 0 _); [injection Hb as <- <- <-; auto|].
  destruct (Qltb _ eps5); injection Hb as <- <- <-; auto.
Qed.

Lemma for_range_invariant_at {A : Type} (P : nat -> A -> Prop)
    (body : nat -> A -> option A) :
  forall len lo a a',
    (forall i x x', (lo <= i < lo + len)%nat -> P i x -> body i x = Some x' -> P (S i) x') ->
    P lo a -> for_range body lo len a = Some a' -> P (lo + len)%nat a'.
Proof.
  induction len as [|len IH]; intros lo a a' Hbody Ha Hrun; cbn in Hrun.
  - injection Hrun as <-. now rewrite Nat.add_0_r.
  - destruct (body lo a) as [a1|] eqn:E; [|discriminate].
    replace (lo + S len)%nat with (S lo + len)%nat by lia.
    apply (IH (S lo) a1 a'); [| |exact Hrun].
    + intros i x x' Hi. apply Hbody. lia.
    + apply (Hbody lo a a1); [lia | exact Ha | exact E].
Qed.

(** X8.  A pass counts at most one change per sample, and a pass that
    counts no change leaves the bias as it was. *)
Theorem pass_count_bounded self rng retries tol K y n st st' nc :
  smo_pass self rng retries tol K y n st = Some (st', nc) ->
  (nc <= n)%nat /\ (nc = 0%nat -> st_b st' = st_b st).
Proof.
  intros Hpass. unfold smo_pass in Hpass.
  apply (for_range_invariant_at
           (fun i acc => (snd acc <= i)%nat /\
                         (snd acc = 0%nat -> st_b (fst acc) = st_b st)))
    in Hpass.
  - exact Hpass.
  - intros i [s c] [s' c'] _ [Hle Hb0] Hstep. cbn [fst snd] in *.
    destruct (smo_step_body _ _ _ _ _ _ _ _ _ _ _ _ Hstep) as [x Hb].
    pose proof (smo_body_exit_effect _ _ _ _ _ _ _ _ _ _ _ _ _ Hb) as Hx.
    destruct x as [|j|j|j|j].
    + destruct Hx as (-> & -> & _). split; [lia | exact Hb0].
    + destruct Hx as (-> & -> & _). split; [lia | exact Hb0].
    + destruct Hx as (-> & -> & _). split; [lia | exact Hb0].
    + destruct Hx as (-> & ->). split; [lia | exact Hb0].
    + subst c'. split; [lia | discriminate].
  - cbn. split; [lia | reflexivity].
Qed.

(** * Further properties of [fit] and of inference *)

Section FitMore.

Variable np_exp : Q -> Q.

Lemma kernel_value_length self (X1 : matrix) (X2 : option matrix) (K : matrix) :
  _kernel np_exp self X1 X2 = Value K -> length K = length X1.
Proof.
  unfold _kernel.
  destruct (String.eqb (kernel self) "linear").
  { destruct X2; [|discriminate]. intros [= <-]. apply length_map. }
  destruct (String.eqb (kernel self) "poly").
  { destruct X2; [|discriminate]. intros [= <-].
    unfold mat_map, matmul_T. now rewrite !length_map. }
  destruct (String.eqb (kernel self) "rbf"); [|discriminate].
  destruct X2; [|discriminate]. intros [= <-].
  unfold mat_map, mat_sub, outer_add, row_sq_sums, matmul_T, mat_map.
  rewrite length_map, length_zip_with, !length_map. lia.
Qed.

(** What a returning [fit] has done, in one place. *)
Lemma fit_returns_inv self rng retries k0 (h : heap) (X : matrix) (y_ref : loc)
    max_iter tol (ys : vector) self' h' :
  h !! y_ref = Some ys ->
  fit np_exp self rng retries k0 h X y_ref max_iter tol = Returns self' h' ->
  exists K y_loc h2 st trace,
    normalize_labels h y_ref = (y_loc, h2) /\
    h2 !! y_loc = Some (map relabel ys) /\
    (forall l, l <> y_loc -> h2 !! l = h !! l) /\
    _kernel np_exp self X (Some X) = Value K /\
    smo_loop (fit_init self X y_loc) rng retries tol K (map relabel ys)
             (length X) max_iter (mkState (repeat 0 (length X)) 0 k0)
    = Some (st, trace) /\
    self' = {| kernel := kernel self; C := C self; gamma := gamma self;
               degree := degree self; coef0 := coef0 self;
               alpha := Some (mask_select (sv_mask (st_alpha st)) (st_alpha st));
               b := st_b st;
               X_train := Some X;
               y_train := Some (fresh (dom h2));
               support_vectors := Some (mask_select (sv_mask (st_alpha st)) X) |} /\
    h' = <[fresh (dom h2) := mask_select (sv_mask (st_alpha st)) (map relabel ys)]> h2.
Proof.
  intros Hy. unfold fit, fit_traced.
  destruct (normalize_labels_spec h y_ref ys Hy) as (y_loc & h2 & Hn & _ & Hcopy & Hframe).
  rewrite Hn. rewrite (lookup_total_correct _ _ _ Hcopy). rewrite kernel_fit_init.
  destruct (_kernel np_exp self X (Some X)) as [K|e]; [|discriminate].
  destruct (smo_loop _ _ _ _ _ _ _ _ _) as [[st trace]|] eqn:Hloop; [|discriminate].
  cbn. intros [= <- <-].
  exists K, y_loc, h2, st, trace. repeat split; auto.
Qed.

Lemma length_mask_select {A : Type} (mask : list bool) (l : list A) :
  (length (mask_select mask l) <= length l)%nat.
Proof.
  revert l. induction mask as [|m mask IH]; intros [|x l]; cbn; try lia.
  specialize (IH l). destruct m; cbn; lia.
Qed.

Lemma length_mask_select_same {A B : Type} (mask : list bool) (l : list A) (k : list B) :
  length l = length k ->
  length (mask_select mask l) = length (mask_select mask k).
Proof.
  revert l k. induction mask as [|m mask IH]; intros [|x l] [|z k] Hlen;
    cbn in *; try lia.
  destruct m; cbn; rewrite (IH l k) by lia; reflexivity.
Qed.

(** X9.  The three arrays a returning [fit] stores for the support vectors
    have the same length, at most the number of samples. *)
Theorem retained_arrays_aligned self rng retries k0 (h : heap) (X : matrix)
    (y_ref : loc) max_iter tol (ys : vector) self' h' :
  h !! y_ref = Some ys -> length ys = length X ->
  fit np_exp self rng retries k0 h X y_ref max_iter tol = Returns self' h' ->
  exists a sv l yv,
    alpha self' = Some a /\ support_vectors self' = Some sv /\
    y_train self' = Some l /\ h' !! l = Some yv /\
    length sv = length a /\ length yv = length a /\ (length a <= length X)%nat.
Proof.
  intros Hy Hlen Hfit.
  destruct (fit_returns_inv _ _ _ _ _ _ _ _ _ _ _ _ Hy Hfit)
    as (K & y_loc & h2 & st & trace & _ & _ & _ & _ & Hloop & -> & ->).
  apply smo_loop_length in Hloop. cbn in Hloop. rewrite repeat_length in Hloop.
  eexists _, _, _, _. cbn.
  split; [reflexivity|]. split; [reflexivity|]. split; [reflexivity|].
  split; [apply lookup_insert_eq|].
  split; [apply length_mask_select_same; congruence|].
  split; [apply length_mask_select_same; rewrite length_map; congruence|].
  rewrite <- Hloop. apply length_mask_select.
Qed.

Lemma Forall_np_sign (d : vector) : Forall is_sign (map np_sign d).
Proof.
  induction d as [|x d IH]; cbn; constructor; [|exact IH].
  unfold np_sign, is_sign. destruct (Qltb x 0); [auto|]. destruct (Qltb 0 x); auto.
Qed.

(** X10.  On a model that [fit] returned for a 2-D array [X] with [d]
    columns and one label per row, [decision_function] and [predict] applied
    to an array [X'] with [d] columns too give one entry per row of [X'],
    and every entry of [predict] is [-1], [0] or [1]. *)
Theorem fitted_model_output_shape self rng retries k0 (h : heap) (X : matrix)
    (y_ref : loc) max_iter tol (ys : vector) (d0 : nat) self' h' (X' : matrix) :
  h !! y_ref = Some ys -> length ys = length X ->
  row_width d0 X -> row_width d0 X' ->
  fit np_exp self rng retries k0 h X y_ref max_iter tol = Returns self' h' ->
  exists d p,
    decision_function np_exp self' h' X' = Value d /\
    predict np_exp self' h' X' = Value p /\
    length d = length X' /\ length p = length X' /\ Forall is_sign p.
Proof.
  intros _ _ _ _. unfold fit, fit_traced.
  destruct (normalize_labels h y_ref) as [y_loc h2].
  destruct (_kernel np_exp (fit_init self X y_loc) X (Some X)) as [K|e] eqn:HK;
    [|discriminate].
  apply kernel_value_supported in HK.
  destruct (smo_loop _ _ _ _ _ _ _ _ _) as [[st trace]|]; [|discriminate].
  cbn. intros [= <- <-].
  unfold predict, decision_function. cbn [support_vectors alpha y_train b].
  match goal with
  | |- context [_kernel np_exp ?s X' (Some ?sv)] =>
      destruct (kernel_supported_value np_exp s X' sv HK) as [K' HK']
  end.
  rewrite HK'. apply kernel_value_length in HK'.
  eexists _, _. split; [reflexivity|]. split; [reflexivity|].
  rewrite !length_map. repeat split; try exact HK'. apply Forall_np_sign.
Qed.

(** X11.  Called with a 2-D array [X] and one label per row in [y], [fit]
    raises only for an unsupported kernel name, and by then it has
    overwritten [X_train], [y_train], [alpha] and [b]; [support_vectors] is
    as before the call. *)
Theorem failed_fit_state self rng retries k0 (h : heap) (X : matrix)
    (y_ref : loc) max_iter tol (ys : vector) e self' h' :
  h !! y_ref = Some ys -> well_shaped X ys ->
  fit np_exp self rng retries k0 h X y_ref max_iter tol = Raises e self' h' ->
  e = ValueError_unknown_kernel /\
  kernel_supported (kernel self) = false /\
  X_train self' = Some X /\
  alpha self' = Some (repeat 0 (length X)) /\
  b self' = 0 /\
  y_train self' = Some (fst (normalize_labels h y_ref)) /\
  support_vectors self' = support_vectors self.
Proof.
  intros _ _. unfold fit, fit_traced.
  destruct (normalize_labels h y_ref) as [y_loc h2].
  rewrite kernel_fit_init.
  destruct (kernel_supported (kernel self)) eqn:Hk.
  - destruct (kernel_supported_value np_exp self X X Hk) as [K ->].
    destruct (smo_loop _ _ _ _ _ _ _ _ _) as [[st trace]|]; cbn; discriminate.
  - unfold _kernel. unfold kernel_supported in Hk.
    destruct (String.eqb (kernel self) "linear"); [discriminate|].
    destruct (String.eqb (kernel self) "poly"); [discriminate|].
    destruct (String.eqb (kernel self) "rbf"); [discriminate|].
    cbn. intros [= <- <- _]. cbn. repeat split.
Qed.

(** X12.  [fit] leaves every array that was in the store as it was: it only
    adds arrays. *)
Theorem fit_only_allocates self rng retries k0 (h : heap) (X : matrix)
    (y_ref : loc) max_iter tol (ys : vector) :
  h !! y_ref = Some ys ->
  match fit np_exp self rng retries k0 h X y_ref max_iter tol with
  | Returns _ h' | Raises _ _ h' =>
      forall l (v : vector), h !! l = Some v -> h' !! l = Some v
  | Diverges => True
  end.
Proof.
  intros Hy.
  destruct (normalize_labels_spec h y_ref ys Hy)
    as (y_loc & h2 & Hn & Hfresh & Hcopy & Hframe).
  assert (Hkeep : forall l (v : vector), h !! l = Some v -> h2 !! l = Some v).
  { intros l v Hl. rewrite Hframe; [exact Hl|].
    intros ->. apply Hfresh, elem_of_dom. eauto. }
  unfold fit, fit_traced. rewrite Hn.
  destruct (_kernel np_exp (fit_init self X y_loc) X (Some X)) as [K|e]; cbn.
  - destruct (smo_loop _ _ _ _ _ _ _ _ _) as [[st trace]|]; cbn; [|exact I].
    intros l v Hl. apply np_alloc_frame. now apply Hkeep.
  - exact Hkeep.
Qed.

Lemma relabel_signed_id (ys : vector) :
  labels_signed ys -> map relabel ys = ys.
Proof.
  unfold labels_signed. induction 1 as [|v ys Hv _ IH]; cbn; [reflexivity|].
  rewrite IH. f_equal. unfold relabel.
  destruct (Qeq_bool v 0) eqn:E; [|reflexivity].
  apply Qeq_bool_iff in E. destruct Hv as [Hv|Hv]; rewrite Hv in E; discriminate.
Qed.

(** X13.  Labels that are already [-1] or [+1] are trained on as they are,
    and the labels [fit] stores for the support vectors are [-1] or [+1]. *)
Theorem signed_labels_are_kept self rng retries k0 (h : heap) (X : matrix)
    (y_ref : loc) max_iter tol (ys : vector) self' h' :
  h !! y_ref = Some ys -> labels_signed ys ->
  fit np_exp self rng retries k0 h X y_ref max_iter tol = Returns self' h' ->
  map relabel ys = ys /\
  exists l yv, y_train self' = Some l /\ h' !! l = Some yv /\ labels_signed yv.
Proof.
  intros Hy Hs Hfit. split; [now apply relabel_signed_id|].
  destruct (fit_returns_inv _ _ _ _ _ _ _ _ _ _ _ _ Hy Hfit)
    as (K & y_loc & h2 & st & trace & _ & _ & _ & _ & _ & -> & ->).
  eexists _, _. cbn. split; [reflexivity|]. split; [apply lookup_insert_eq|].
  apply Forall_mask_select. rewrite relabel_signed_id by exact Hs. exact Hs.
Qed.

End FitMore.

(** * Models without support vectors, and refitting *)

Section NullModel.

Variable np_exp : Q -> Q.











Lemma for_range_ext {A : Type} (f g : nat -> A -> option A) :
  (forall i a, f i a = g i a) ->
  forall len lo a, for_range f lo len a = for_range g lo len a.
Proof.
  intros Hfg. induction len as [|len IH]; intros lo a; cbn; [reflexivity|].
  rewrite Hfg. destruct (g lo a); [apply IH | reflexivity].
Qed.

Lemma smo_loop_same_C s1 s2 rng retries tol K y n max_iter :
  C s1 = C s2 ->
  forall st, smo_loop s1 rng retries tol K y n max_iter st
             = smo_loop s2 rng retries tol K y n max_iter st.
Proof.
  intros HC.
  assert (Hpass : forall st, smo_pass s1 rng retries tol K y n st
                             = smo_pass s2 rng retries tol K y n st).
  { intros st. unfold smo_pass. apply for_range_ext. intros i a.
    unfold smo_step, smo_body, kkt_violated, bounds. now rewrite HC. }
  induction max_iter as [|m IH]; intros st; cbn; [reflexivity|].
  rewrite Hpass. destruct (smo_pass s2 _ _ _ _ _ _ _) as [[s k]|]; [|reflexivity].
  now rewrite IH.
Qed.

(** X16.  [fit] depends on the constructor arguments only, not on what an
    earlier [fit] left in the object: two objects with the same arguments
    return the same model (or both never return), and the returned model
    still has these arguments. *)
Theorem refit_ignores_previous_state s1 s2 rng retries k0 (h : heap) (X : matrix)
    (y_ref : loc) max_iter tol :
  same_config s1 s2 ->
  match fit np_exp s1 rng retries k0 h X y_ref max_iter tol with
  | Returns r h' =>
      fit np_exp s2 rng retries k0 h X y_ref max_iter tol = Returns r h' /\
      same_config s1 r
  | Raises e r h' =>
      exists r2, fit np_exp s2 rng retries k0 h X y_ref max_iter tol = Raises e r2 h'
  | Diverges => fit np_exp s2 rng retries k0 h X y_ref max_iter tol = Diverges
  end.
Proof.
  intros (Hk & HC & Hg & Hd & Hc0). unfold fit, fit_traced.
  destruct (normalize_labels h y_ref) as [y_loc h2].
  rewrite !kernel_fit_init.
  assert (HK : _kernel np_exp s1 X (Some X) = _kernel np_exp s2 X (Some X))
    by (unfold _kernel; now rewrite Hk, Hg, Hd, Hc0).
  rewrite <- HK.
  destruct (_kernel np_exp s1 X (Some X)) as [K|e]; cbn; [|eauto].
  rewrite <- (smo_loop_same_C (fit_init s1 X y_loc) (fit_init s2 X y_loc)) by exact HC.
  destruct (smo_loop _ _ _ _ _ _ _ _ _) as [[st trace]|]; cbn; [|reflexivity].
  rewrite Hk, HC, Hg, Hd, Hc0. split; [reflexivity|].
  unfold same_config. cbn. auto.
Qed.

End NullModel.

(** * The notebook's label preparation *)

Lemma mask_select_ne_filter (y : vector) (c : Q) :
  mask_select (np_ne_mask y c) y = List.filter (fun v => negb (Qeq_bool v c)) y.
Proof.
  unfold np_ne_mask.
  induction y as [|v y IH]; cbn [map mask_select List.filter]; [reflexivity|].
  destruct (negb (Qeq_bool v c)); now rewrite IH.
Qed.

Lemma np_where_eq0_signed (y : vector) : labels_signed (np_where_eq0 y).
Proof.
  unfold labels_signed, np_where_eq0.
  induction y as [|v y IH]; cbn; constructor; [|exact IH].
  destruct (Qeq_bool v 0); [right | left]; reflexivity.
Qed.

Lemma prepare_binary_pairs (y : vector) :
  forall X : matrix,
    length X = length y ->
    combine (mask_select (np_ne_mask y 2) X)
            (np_where_eq0 (mask_select (np_ne_mask y 2) y))
    = map (fun p => (fst p, if Qeq_bool (snd p) 0 then -1 else 1))
          (List.filter (fun p => negb (Qeq_bool (snd p) 2)) (combine X y)).
Proof.
  unfold np_ne_mask, np_where_eq0.
  induction y as [|v y IH]; intros [|r X] Hlen; cbn in Hlen; try discriminate;
    [reflexivity|].
  cbn [map mask_select combine List.filter fst snd].
  destruct (negb (Qeq_bool v 2)); cbn [map combine fst snd];
    rewrite IH by congruence; reflexivity.
Qed.

(** X17.  The notebook's preparation pairs every kept row with the image of
    its own label: the kept (row, label) pairs are, in order, exactly the
    samples whose label is not [2], with label [0] turned into [-1] and any
    other label into [+1].  Rows and labels have the same length, and the
    labels are all [-1] or [+1], which the relabelling of [fit] leaves as
    they are. *)
Theorem prepare_binary_labels (X : matrix) (y : vector) (X' : matrix) (y' : vector) :
  length X = length y ->
  prepare_binary X y = (X', y') ->
  combine X' y'
  = map (fun p => (fst p, if Qeq_bool (snd p) 0 then -1 else 1))
        (List.filter (fun p => negb (Qeq_bool (snd p) 2)) (combine X y)) /\
  length X' = length y' /\
  labels_signed y' /\
  map relabel y' = y'.
Proof.
  intros Hlen. unfold prepare_binary. intros [= <- <-].
  split; [|split; [|split]].
  - now apply prepare_binary_pairs.
  - unfold np_where_eq0. rewrite length_map. now apply length_mask_select_same.
  - apply np_where_eq0_signed.
  - apply relabel_signed_id, np_where_eq0_signed.
Qed.

Lemma prepare_binary_labels_witness :
  length X_line = length [0; 2; 1] /\
  prepare_binary X_line [0; 2; 1] = ([[0; 0]; [4; 0]], [-1; 1]) /\
  combine [[0; 0]; [4; 0]] [-1; 1]
  = map (fun p => (fst p, if Qeq_bool (snd p) 0 then -1 else 1))
        (List.filter (fun p => negb (Qeq_bool (snd p) 2)) (combine X_line [0; 2; 1])) /\
  length [[0; 0]; [4; 0]] = length [-1; 1] /\
  labels_signed [-1; 1].
Proof.
  split; [reflexivity|]. split; [reflexivity|].
  destruct (prepare_binary_labels X_line [0; 2; 1] [[0; 0]; [4; 0]] [-1; 1]
              eq_refl eq_refl) as (H0 & H1 & H3 & _).
  split; [exact H0|]. split; [exact H1 | exact H3].
Defined.

(** * The further properties on concrete runs *)

Lemma kernel_shape_witness :
  _kernel exp_series svm_linear X_line (Some X_unit) = Value (matmul_T X_line X_unit) /\
  length (matmul_T X_line X_unit) = 3%nat /\
  length (nth 0 (matmul_T X_line X_unit) []) = 2%nat.
Proof.
  split; [reflexivity|].
  destruct (kernel_shape exp_series svm_linear X_line X_unit (matmul_T X_line X_unit)
              eq_refl) as [Hrows Hcols].
  split; [exact Hrows|]. apply (Hcols 0%nat). cbn. lia.
Defined.

Lemma rbf_entry_uses_sq_dist_witness :
  kernel svm_rbf = "rbf" /\
  exists K d,
    _kernel exp_series svm_rbf X_unit (Some X_unit) = Value K /\
    mget K 0 1 = exp_series (- gamma svm_rbf * d) /\
    d == sq_dist [1; 0] [0; 1].
Proof.
  split; [reflexivity|].
  destruct (_kernel exp_series svm_rbf X_unit (Some X_unit)) as [K|e] eqn:HK;
    [|vm_compute in HK; discriminate].
  assert (H0 : (0 < length X_unit)%nat) by (cbn; lia).
  assert (H1 : (1 < length X_unit)%nat) by (cbn; lia).
  destruct (rbf_entry_uses_sq_dist exp_series svm_rbf X_unit X_unit K 0 1
              eq_refl HK H0 H1 eq_refl) as (d & Hd & Hdist).
  exists K, d. auto.
Defined.

Lemma linear_eta_nonpositive_witness :
  kernel svm_linear = "linear" /\
  _kernel exp_series svm_linear X_line (Some X_line) = Value (matmul_T X_line X_line) /\
  eta_of (matmul_T X_line X_line) 0 2 == - sq_dist [0; 0] [4; 0] /\
  eta_of (matmul_T X_line X_line) 0 2 <= 0.
Proof.
  split; [reflexivity|]. split; [reflexivity|].
  assert (H0 : (0 < length X_line)%nat) by (cbn; lia).
  assert (H2 : (2 < length X_line)%nat) by (cbn; lia).
  apply (linear_eta_nonpositive exp_series svm_linear X_line (matmul_T X_line X_line)
           0 2 eq_refl eq_refl H0 H2 eq_refl).
Defined.

Lemma partner_is_other_sample_witness :
  (0 < 3)%nat /\
  pick_partner rng_count 3 3 1 1 = Some (2%nat, 3%nat) /\
  2%nat <> 1%nat /\ (2 < 3)%nat /\ (1 < 3 <= 1 + 3)%nat.
Proof.
  assert (Hn : (0 < 3)%nat) by lia.
  split; [exact Hn|]. split; [reflexivity|].
  apply (partner_is_other_sample rng_count 3 3 1 1 2 3 Hn eq_refl).
Defined.

Lemma partner_multiplier_in_box_witness :
  0 <= C svm_linear /\
  exists st' nc',
    smo_body svm_linear rng_count 2 (1 # 1000) (matmul_T X_unit X_unit) [-1; 2]
             2 0 (mkState [0; 0] 0 0) 0
    = Some (st', nc', Updated 1) /\
    in_box (C svm_linear) (vget (st_alpha st') 1).
Proof.
  assert (HC : 0 <= C svm_linear) by (cbn; lra).
  split; [exact HC|].
  eexists _, _. split; [vm_compute; reflexivity|].
  assert (Hi : (0 < 2)%nat) by lia.
  assert (Hbox : Forall (in_box (C svm_linear)) [0; 0])
    by (repeat constructor; cbn; lra).
  refine (partner_multiplier_in_box svm_linear rng_count 2 (1 # 1000)
            (matmul_T X_unit X_unit) [-1; 2] 2 0 (mkState [0; 0] 0 0) 0 _ _
            (Updated 1) 1 HC eq_refl Hi Hbox _ (or_intror eq_refl)).
  vm_compute. reflexivity.
Defined.

Lemma signed_labels_keep_box_witness :
  0 <= C svm_linear /\ labels_signed [-1; 1] /\
  exists st' trace,
    smo_loop svm_linear rng_count 2 (1 # 1000) (matmul_T X_unit X_unit) [-1; 1]
             2 10 (mkState [0; 0] 0 0)
    = Some (st', trace) /\
    length (st_alpha st') = 2%nat /\
    Forall (in_box (C svm_linear)) (st_alpha st').
Proof.
  assert (HC : 0 <= C svm_linear) by (cbn; lra).
  assert (Hy : labels_signed [-1; 1])
    by (constructor; [right|constructor; [left|constructor]]; reflexivity).
  split; [exact HC|]. split; [exact Hy|].
  assert (Hbox : Forall (in_box (C svm_linear)) [0; 0])
    by (repeat constructor; cbn; lra).
  eexists _, _. split; [vm_compute; reflexivity|].
  refine (signed_labels_keep_box svm_linear rng_count 2 (1 # 1000)
            (matmul_T X_unit X_unit) [-1; 1] 2 10 (mkState [0; 0] 0 0) _ _
            HC Hy eq_refl eq_refl Hbox _).
  vm_compute. reflexivity.
Defined.


Lemma pass_count_bounded_witness :
  exists st' nc,
    smo_pass svm_linear rng_count 2 (1 # 1000) (matmul_T X_unit X_unit) [-1; 1]
             2 (mkState [0; 0] 0 0)
    = Some (st', nc) /\
    (nc <= 2)%nat.
Proof.
  eexists _, _. split; [vm_compute; reflexivity|].
  refine (proj1 (pass_count_bounded svm_linear rng_count 2 (1 # 1000)
                   (matmul_T X_unit X_unit) [-1; 1] 2 (mkState [0; 0] 0 0) _ _ _)).
  vm_compute. reflexivity.
Defined.

Lemma retained_arrays_aligned_witness :
  store_of [0; 1; 1] !! 0%nat = Some [0; 1; 1] /\
  length [0; 1; 1] = length X_line /\
  exists self' h' a sv,
    fit exp_series svm_linear rng_count 3 0 (store_of [0; 1; 1]) X_line 0%nat 20 (1 # 1000)
    = Returns self' h' /\
    alpha self' = Some a /\ support_vectors self' = Some sv /\
    length sv = length a /\ (length a <= length X_line)%nat.
Proof.
  split; [reflexivity|]. split; [reflexivity|].
  destruct (fit exp_series svm_linear rng_count 3 0 (store_of [0; 1; 1]) X_line 0%nat 20
                (1 # 1000)) as [self' h'| |] eqn:E;
    [|vm_compute in E; discriminate|vm_compute in E; discriminate].
  destruct (retained_arrays_aligned exp_series svm_linear rng_count 3 0
              (store_of [0; 1; 1]) X_line 0%nat 20 (1 # 1000) [0; 1; 1] self' h'
              eq_refl eq_refl E)
    as (a & sv & l & yv & Ha & Hsv & _ & _ & H1 & _ & H3).
  exists self', h', a, sv. auto.
Defined.

Lemma fitted_model_output_shape_witness :
  store_of [0; 1; 1] !! 0%nat = Some [0; 1; 1] /\
  length [0; 1; 1] = length X_line /\
  row_width 2 X_line /\ row_width 2 X_unit /\
  exists self' h' d p,
    fit exp_series svm_linear rng_count 3 0 (store_of [0; 1; 1]) X_line 0%nat 20 (1 # 1000)
    = Returns self' h' /\
    decision_function exp_series self' h' X_unit = Value d /\
    predict exp_series self' h' X_unit = Value p /\
    length p = length X_unit /\ Forall is_sign p.
Proof.
  assert (Hw : row_width 2 X_line) by (repeat constructor).
  assert (Hw' : row_width 2 X_unit) by (repeat constructor).
  split; [reflexivity|]. split; [reflexivity|]. split; [exact Hw|]. split; [exact Hw'|].
  destruct (fit exp_series svm_linear rng_count 3 0 (store_of [0; 1; 1]) X_line 0%nat 20
                (1 # 1000)) as [self' h'| |] eqn:E;
    [|vm_compute in E; discriminate|vm_compute in E; discriminate].
  destruct (fitted_model_output_shape exp_series svm_linear rng_count 3 0
              (store_of [0; 1; 1]) X_line 0%nat 20 (1 # 1000) [0; 1; 1] 2 self' h'
              X_unit eq_refl eq_refl Hw Hw' E)
    as (d & p & Hd & Hp & _ & Hlen & Hsign).
  exists self', h', d, p. auto.
Defined.

Lemma failed_fit_state_witness :
  store_of [0; 1] !! 0%nat = Some [0; 1] /\
  well_shaped X_unit [0; 1] /\
  exists self' h',
    fit exp_series svm_unknown rng_count 2 0 (store_of [0; 1]) X_unit 0%nat 10 (1 # 1000)
    = Raises ValueError_unknown_kernel self' h' /\
    X_train self' = Some X_unit /\
    alpha self' = Some [0; 0] /\
    support_vectors self' = None.
Proof.
  assert (Hshape : well_shaped X_unit [0; 1])
    by (split; [reflexivity | exists 2%nat; repeat constructor]).
  split; [reflexivity|]. split; [exact Hshape|].
  destruct (fit exp_series svm_unknown rng_count 2 0 (store_of [0; 1]) X_unit 0%nat 10
                (1 # 1000)) as [self' h'|e self' h'|] eqn:E;
    [vm_compute in E; discriminate| |vm_compute in E; discriminate].
  destruct (failed_fit_state exp_series svm_unknown rng_count 2 0 (store_of [0; 1])
              X_unit 0%nat 10 (1 # 1000) [0; 1] e self' h' eq_refl Hshape E)
    as (-> & _ & HX & Ha & _ & _ & Hsv).
  exists self', h'. auto.
Defined.

Lemma fit_only_allocates_witness :
  store_of [0; 1] !! 0%nat = Some [0; 1] /\
  exists self' h',
    fit exp_series svm_linear rng_count 2 0 (store_of [0; 1]) X_unit 0%nat 10 (1 # 1000)
    = Returns self' h' /\
    forall l (v : vector), store_of [0; 1] !! l = Some v -> h' !! l = Some v.
Proof.
  split; [reflexivity|].
  pose proof (fit_only_allocates exp_series svm_linear rng_count 2 0
                (store_of [0; 1]) X_unit 0%nat 10 (1 # 1000) [0; 1] eq_refl) as Hfit.
  destruct (fit exp_series svm_linear rng_count 2 0 (store_of [0; 1]) X_unit 0%nat 10
                (1 # 1000)) as [self' h'| |] eqn:E;
    [|vm_compute in E; discriminate|vm_compute in E; discriminate].
  exists self', h'. auto.
Defined.

Lemma signed_labels_are_kept_witness :
  store_of [-1; 1] !! 0%nat = Some [-1; 1] /\ labels_signed [-1; 1] /\
  exists self' h' l yv,
    fit exp_series svm_linear rng_count 2 0 (store_of [-1; 1]) X_unit 0%nat 10 (1 # 1000)
    = Returns self' h' /\
    y_train self' = Some l /\ h' !! l = Some yv /\ labels_signed yv.
Proof.
  assert (Hy : labels_signed [-1; 1])
    by (constructor; [right|constructor; [left|constructor]]; reflexivity).
  split; [reflexivity|]. split; [exact Hy|].
  destruct (fit exp_series svm_linear rng_count 2 0 (store_of [-1; 1]) X_unit 0%nat 10
                (1 # 1000)) as [self' h'| |] eqn:E;
    [|vm_compute in E; discriminate|vm_compute in E; discriminate].
  destruct (signed_labels_are_kept exp_series svm_linear rng_count 2 0
              (store_of [-1; 1]) X_unit 0%nat 10 (1 # 1000) [-1; 1] self' h'
              eq_refl Hy E) as (_ & l & yv & Hl & Hyv & Hs).
  exists self', h', l, yv. auto.
Defined.



Lemma refit_ignores_previous_state_witness :
  same_config svm_linear svm_stale /\
  exists r h',
    fit exp_series svm_linear rng_count 2 0 (store_of [0; 1]) X_unit 0%nat 10 (1 # 1000)
    = Returns r h' /\
    fit exp_series svm_stale rng_count 2 0 (store_of [0; 1]) X_unit 0%nat 10 (1 # 1000)
    = Returns r h'.
Proof.
  assert (Hcfg : same_config svm_linear svm_stale) by (repeat split).
  split; [exact Hcfg|].
  pose proof (refit_ignores_previous_state exp_series svm_linear svm_stale rng_count 2 0
                (store_of [0; 1]) X_unit 0%nat 10 (1 # 1000) Hcfg) as Hre.
  destruct (fit exp_series svm_linear rng_count 2 0 (store_of [0; 1]) X_unit 0%nat 10
                (1 # 1000)) as [r h'| |] eqn:E;
    [|vm_compute in E; discriminate|vm_compute in E; discriminate].
  exists r, h'. split; [reflexivity | apply Hre].
Defined.

Lemma fit_single_sample_diverges_witness :
  kernel_supported (kernel svm_linear) = true /\
  store_of [1] !! 0%nat = Some [1] /\
  0 < C svm_linear /\ (1 # 1000) < relabel 1 * relabel 1 /\
  fit exp_series svm_linear rng_count 50 0 (store_of [1]) [[3; 4]] 0%nat 1 (1 # 1000)
  = Diverges.
Proof.
  assert (HC : 0 < C svm_linear) by (cbn; lra).
  assert (Htol : (1 # 1000) < relabel 1 * relabel 1) by (vm_compute; reflexivity).
  split; [reflexivity|]. split; [reflexivity|]. split; [exact HC|]. split; [exact Htol|].
  apply (fit_single_sample_diverges exp_series svm_linear rng_count 50 0 (store_of [1])
           [3; 4] 0%nat 1 0 (1 # 1000) eq_refl eq_refl HC Htol).
Defined.
